(** * A Raft node: role state machine, election, heartbeat and the two RPCs

    Shallow embedding of package [raft] (dp/kvstore/core/raft): the role
    state machine of statemachine.go, and the consensus node, type [Node]
    with its constructor, its timer callbacks and its two RPC handlers.

    Conventions.
    - Go's [int] is taken at its 64-bit width: a term is a [Z], and
      [currentTerm++] is written with its wrap-around ([wrap]).
    - Every handler of a node runs with the node's mutex held from entry
      to exit, so a handler is one atomic step on the node's fields: a
      function from the node before to an [Outcome], which is either a
      normal return or a Go panic, together with the node as the handler
      left it and the RPCs it sent to its peers.
    - A peer is reached through the interface [NodeRPC] only. Within one
      handler every peer is called once, so a peer is the answer it gives
      to a call; a call that never returns gives the handler no outcome
      and is outside this development, as is a send on a timer channel
      that nobody receives.
    - [n.log] and [log.Printf] only print; they are left out. *)

From stdpp Require Import base option list numbers gmap strings sorting.

Local Open Scope Z_scope.

(** ** Go integers *)

Definition int_min : Z := - 2 ^ 63.
Definition int_max : Z := 2 ^ 63 - 1.

(** The value a 64-bit two's complement register holds for [z]. *)
Definition wrap (z : Z) : Z := (z + 2 ^ 63) `mod` 2 ^ 64 - 2 ^ 63.

(** ** statemachine.go *)

(** [type State int] with its three constants (iota: 0, 1, 2). *)
Inductive State : Set := FOLLOWER | CANDIDATE | LEADER.

#[global] Instance State_eq_dec : EqDecision State.
Proof. solve_decision. Defined.

Definition State_to_nat (s : State) : nat :=
  match s with FOLLOWER => 0 | CANDIDATE => 1 | LEADER => 2 end%nat.

Definition State_of_nat (k : nat) : State :=
  match k with O => FOLLOWER | S O => CANDIDATE | _ => LEADER end.

#[global] Instance State_countable : Countable State.
Proof.
  apply (inj_countable' State_to_nat State_of_nat).
  intros s. destruct s; reflexivity.
Defined.

Record Statemachine : Type := mkStatemachine {
  current : State;
  validTransitions : gmap State (list State)
}.

Definition NewStatemachine : Statemachine :=
  {| current := FOLLOWER;
     validTransitions :=
       {[ FOLLOWER := [CANDIDATE];
          CANDIDATE := [FOLLOWER; CANDIDATE; LEADER];
          LEADER := [FOLLOWER] ]} |}.

(** The loop of [isValid]: the first element equal to [next] answers true. *)
Fixpoint found (nextStates : list State) (next : State) : bool :=
  match nextStates with
  | [] => false
  | v :: rest => if decide (v = next) then true else found rest next
  end.

(** Indexing a Go map with a key it lacks gives the nil slice. *)
Definition isValid (s : Statemachine) (next : State) : bool :=
  let nextStates := default [] (validTransitions s !! current s) in
  found nextStates next.

(** What a panic of the package reports. *)
Inductive Fatal : Set :=
| StateChangeNotAllowed (from to : State)
| ElectionTimeoutAsLeader
| HeartbeatNotLeader
| NilCluster.

Definition Next (next : State) (s : Statemachine) : Fatal + Statemachine :=
  if negb (isValid s next)
  then inl (StateChangeNotAllowed (current s) next)
  else inr {| current := next; validTransitions := validTransitions s |}.

Definition Current (s : Statemachine) : State := current s.

(** The transition table as the specification words it. *)
Inductive legal : State -> State -> Prop :=
| follower_candidate : legal FOLLOWER CANDIDATE
| candidate_follower : legal CANDIDATE FOLLOWER
| candidate_candidate : legal CANDIDATE CANDIDATE
| candidate_leader : legal CANDIDATE LEADER
| leader_follower : legal LEADER FOLLOWER.

(** A state machine in role [cur] as [NewStatemachine] and [Next] leave it:
    the table is set once and never written again. *)
Definition inRole (cur : State) : Statemachine :=
  {| current := cur; validTransitions := validTransitions NewStatemachine |}.

(** A run of [Next] calls, one per requested role, up to the first panic. *)
Fixpoint advance (path : list State) (s : Statemachine) : Fatal + Statemachine :=
  match path with
  | [] => inr s
  | next :: rest =>
      match Next next s with
      | inl why => inl why
      | inr s' => advance rest s'
      end
  end.

(** A path through the transition table, starting from [cur]. *)
Fixpoint legalPath (cur : State) (path : list State) : Prop :=
  match path with
  | [] => True
  | next :: rest => legal cur next /\ legalPath next rest
  end.

(** ** dp/idserv/client: GenerateIds *)

Section IDService.

(** Modelled from the spec: the declaration of interface [idserv.IDService]
    is not among the source files. [GenerateIds] calls its method
    [NewUUID(clientID)], which answers a string; the service may keep
    state between calls, so a call is a function of the state of the service. *)
Context {Service : Type}.
Variable NewUUID : string -> Service -> string * Service.

(** The loop of [GenerateIds] from index [i], with [k] rounds to go:
    [result[i] = service.NewUUID("c1")]. The index is in range in every
    round, so the store is the list update. *)
Fixpoint fillIds (k i : nat) (result : list string) (service : Service) : list string * Service :=
  match k with
  | O => (result, service)
  | S k' =>
      let '(uuid, service') := NewUUID "c1" service in
      fillIds k' (S i) (<[i := uuid]> result) service'
  end.

(** The greatest length [make] accepts for a [[]string] on the platform. *)
Variable maxLen : Z.

(** [make([]string, count)] panics for a [count] that is negative or beyond
    what it accepts (no result, the service not called); otherwise the
    slice holds [count] empty strings and the loop runs for
    [i = 0 .. count - 1]. *)
Definition GenerateIds (count : Z) (service : Service) : option (list string * Service) :=
  if (count <? 0) || (maxLen <? count) then None
  else
    let result := replicate (Z.to_nat count) EmptyString in
    Some (fillIds (Z.to_nat count) 0 result service).

(** The first [k] ids the service hands to client "c1", in the order of
    the calls, and the service after them. *)
Fixpoint drawIds (k : nat) (service : Service) : list string * Service :=
  match k with
  | O => ([], service)
  | S k' =>
      let '(uuid, service') := NewUUID "c1" service in
      let '(uuids, service'') := drawIds k' service' in
      (uuid :: uuids, service'')
  end.

End IDService.

(** ** The collaborators of a node *)

(** Modelled from the spec: the declaration of interface [NodeRPC] is not
    among the source files. The RPC surface of a node is the two methods
    RequestVote(term, candidateId, lastLogIndex, lastLogTerm) and
    AppendEntries(term, leaderId, prevLogIndex, prevLogTerm, entries,
    leaderCommit), each answering the peer's current term and a flag; the
    calls in the source agree. *)
Module NodeRPC.
Record t : Type := mk {
  RequestVote : Z -> Z -> Z -> Z -> Z * bool;
  AppendEntries : Z -> Z -> Z -> Z -> list string -> Z -> Z * bool
}.
End NodeRPC.

(** Modelled from the spec: the declaration of [Cluster] is not among the
    source files. The node reads its field [allNodes], whose length is the
    total cluster size, the node itself included. *)
Record Cluster : Type := mkCluster {
  allNodes : list NodeRPC.t
}.

(** Modelled from the spec: [Cluster.GetRemoteFollowers] is not among the
    source files. The cluster view enumerates the peer capabilities
    excluding self; ids are 0-based and incrementing, so the node with id
    [i] is the one at position [i] of [allNodes]. *)
Fixpoint remoteFrom (i : Z) (nodes : list NodeRPC.t) (self : Z) : list NodeRPC.t :=
  match nodes with
  | [] => []
  | node :: rest =>
      if i =? self then remoteFrom (i + 1) rest self
      else node :: remoteFrom (i + 1) rest self
  end.

Definition GetRemoteFollowers (c : Cluster) (self : Z) : list NodeRPC.t :=
  remoteFrom 0 (allNodes c) self.

(** Modelled from the spec: the periodic timer ([timercontrol],
    [createPeriodicTimer]) is not among the source files. A node drives a
    timer only by sending on its two channels: a send on [resetC] (re)arms
    it, a send on [stopC] disarms it, and a timer is built disarmed. The
    timer is kept as the signals it was sent, newest first. *)
Inductive timersignal : Set := resetC | stopC.

Record timercontrol : Type := mkTimer {
  received : list timersignal
}.

Definition createPeriodicTimer : timercontrol := {| received := [] |}.

Definition signal (sig : timersignal) (t : timercontrol) : timercontrol :=
  {| received := sig :: received t |}.

Definition armed (t : timercontrol) : bool :=
  match received t with
  | resetC :: _ => true
  | _ => false
  end.

(** An RPC a node sent to a peer. *)
Inductive RpcCall : Type :=
| CallRequestVote (peer : NodeRPC.t) (term candidateID lastLogIndex lastLogTerm : Z)
| CallAppendEntries (peer : NodeRPC.t) (term leaderID prevLogIndex prevLogTerm : Z)
    (entries : list string) (leaderCommit : Z).

(** The peer [p], except that a RequestVote reply carrying a term greater
    than [t] carries [t] instead; the grant flag is [p]'s. *)
Definition levelled (t : Z) (p : NodeRPC.t) : NodeRPC.t :=
  {| NodeRPC.RequestVote := fun term candidateID lastLogIndex lastLogTerm =>
       let '(reply, ok) :=
         NodeRPC.RequestVote p term candidateID lastLogIndex lastLogTerm in
       (if reply >? t then t else reply, ok);
     NodeRPC.AppendEntries := NodeRPC.AppendEntries p |}.

Definition levelCluster (t : Z) (c : Cluster) : Cluster :=
  {| allNodes := map (levelled t) (allNodes c) |}.

(** *** Peers and clusters used in the worked examples *)

(** A peer of the candidate's term that grants every vote and accepts every
    heartbeat. *)
Definition granting : NodeRPC.t :=
  {| NodeRPC.RequestVote := fun term _ _ _ => (term, true);
     NodeRPC.AppendEntries := fun term _ _ _ _ _ => (term, true) |}.

(** A peer one term ahead of every caller: it denies and reports its term. *)
Definition ahead : NodeRPC.t :=
  {| NodeRPC.RequestVote := fun term _ _ _ => (term + 1, false);
     NodeRPC.AppendEntries := fun term _ _ _ _ _ => (term + 1, false) |}.

(** Clusters of one and of three nodes. Position 0 is the place of the
    examples' node itself, which is never called. *)
Definition alone : Cluster := {| allNodes := [granting] |}.
Definition trio : Cluster := {| allNodes := [granting; granting; ahead] |}.

(** ** The consensus node *)

Section Node.

(** The replicated log is a collaborator whose code is not among the source
    files: its type and its constructor are parameters. The node only
    holds the log. *)
Context {ReplicatedLog : Type}.
Variable NewReplicatedLog : ReplicatedLog.

(** The [mutex] field has no counterpart: a handler is one atomic step.
    [votedFor] is a [*int], nil or the address of an int that is not
    written afterwards; [cluster] is a [*Cluster], nil until [Start]. *)
Record Node : Type := mkNode {
  id : Z;
  statemachine : Statemachine;
  replicatedLog : ReplicatedLog;
  electionTimer : timercontrol;
  heartbeatTimer : timercontrol;
  currentTerm : Z;
  votedFor : option Z;
  cluster : option Cluster;
  stopped : bool
}.

Definition set_statemachine (s : Statemachine) (n : Node) : Node :=
  mkNode (id n) s (replicatedLog n) (electionTimer n) (heartbeatTimer n)
    (currentTerm n) (votedFor n) (cluster n) (stopped n).

Definition set_electionTimer (t : timercontrol) (n : Node) : Node :=
  mkNode (id n) (statemachine n) (replicatedLog n) t (heartbeatTimer n)
    (currentTerm n) (votedFor n) (cluster n) (stopped n).

Definition set_heartbeatTimer (t : timercontrol) (n : Node) : Node :=
  mkNode (id n) (statemachine n) (replicatedLog n) (electionTimer n) t
    (currentTerm n) (votedFor n) (cluster n) (stopped n).

Definition set_currentTerm (term : Z) (n : Node) : Node :=
  mkNode (id n) (statemachine n) (replicatedLog n) (electionTimer n)
    (heartbeatTimer n) term (votedFor n) (cluster n) (stopped n).

Definition set_votedFor (v : option Z) (n : Node) : Node :=
  mkNode (id n) (statemachine n) (replicatedLog n) (electionTimer n)
    (heartbeatTimer n) (currentTerm n) v (cluster n) (stopped n).

Definition set_cluster (c : option Cluster) (n : Node) : Node :=
  mkNode (id n) (statemachine n) (replicatedLog n) (electionTimer n)
    (heartbeatTimer n) (currentTerm n) (votedFor n) c (stopped n).

Definition set_stopped (b : bool) (n : Node) : Node :=
  mkNode (id n) (statemachine n) (replicatedLog n) (electionTimer n)
    (heartbeatTimer n) (currentTerm n) (votedFor n) (cluster n) b.

(** *** The handler monad: node state, sent RPCs, panics *)

Inductive Outcome (A : Type) : Type :=
| Returns (a : A) (n : Node) (sent : list RpcCall)
| Panics (why : Fatal) (n : Node) (sent : list RpcCall).
Arguments Returns {A} a n sent.
Arguments Panics {A} why n sent.

Definition M (A : Type) : Type := Node -> Outcome A.

#[local] Instance M_ret : MRet M := fun A a n => Returns a n [].

(** An outcome reached after [sent1] had already been sent. *)
Definition prefixed {A : Type} (sent1 : list RpcCall) (o : Outcome A) : Outcome A :=
  match o with
  | Returns b n2 sent2 => Returns b n2 (sent1 ++ sent2)
  | Panics why n2 sent2 => Panics why n2 (sent1 ++ sent2)
  end.

#[local] Instance M_bind : MBind M := fun A B f m n =>
  match m n with
  | Returns a n1 sent1 => prefixed sent1 (f a n1)
  | Panics why n1 sent1 => Panics why n1 sent1
  end.

Definition get : M Node := fun n => Returns n n [].
Definition modify (f : Node -> Node) : M unit := fun n => Returns tt (f n) [].
Definition panic {A : Type} (why : Fatal) : M A := fun n => Panics why n [].
Definition send (c : RpcCall) : M unit := fun n => Returns tt n [c].

(** [for _, x := range l { ... }], collecting what each round yields. *)
Fixpoint forEach {A B : Type} (body : A -> M B) (l : list A) : M (list B) :=
  match l with
  | [] => mret []
  | x :: rest => b ← body x; bs ← forEach body rest; mret (b :: bs)
  end.

(** [n.statemachine.Next(next)] *)
Definition statemachineNext (next : State) : M unit := fun n =>
  match Next next (statemachine n) with
  | inr s => Returns tt (set_statemachine s n) []
  | inl why => Panics why n []
  end.

(** [n.electionTimer.resetC <- true], [n.electionTimer.stopC <- true] *)
Definition electionTimerSend (sig : timersignal) : M unit :=
  modify (fun n => set_electionTimer (signal sig (electionTimer n)) n).

(** [n.heartbeatTimer.resetC <- true], [n.heartbeatTimer.stopC <- true] *)
Definition heartbeatTimerSend (sig : timersignal) : M unit :=
  modify (fun n => set_heartbeatTimer (signal sig (heartbeatTimer n)) n).

(** Modelled from the spec: [isLeader], [isNotLeader] and [isCandidate] are
    not among the source files; they test the role the state machine
    holds. *)
Definition isLeader (n : Node) : bool :=
  bool_decide (Current (statemachine n) = LEADER).
Definition isNotLeader (n : Node) : bool := negb (isLeader n).
Definition isCandidate (n : Node) : bool :=
  bool_decide (Current (statemachine n) = CANDIDATE).

(** *** Construction, start and stop *)

Definition NewNode (id : Z) : Node :=
  {| id := id;
     statemachine := NewStatemachine;
     replicatedLog := NewReplicatedLog;
     electionTimer := createPeriodicTimer;
     heartbeatTimer := createPeriodicTimer;
     currentTerm := 0;
     votedFor := None;
     cluster := None;
     stopped := false |}.

Definition Start (c : option Cluster) : M unit :=
  modify (set_stopped false);;
  modify (set_cluster c);;
  electionTimerSend resetC.

Definition Stop : M unit :=
  modify (set_stopped true);;
  heartbeatTimerSend stopC;;
  electionTimerSend stopC;;
  statemachineNext FOLLOWER.

(** *** Election *)

(** An outcome tells where a handler ends, not the order in which it got
    there. The handlers of the election round are therefore embedded with
    their moments: a statement that writes the node leaves the node as it
    is after it, and a call to a peer leaves the call and the node as it is
    when the call is issued. *)
Inductive Moment : Type :=
| Wrote (after : Node)
| Called (call : RpcCall) (issuer : Node).

Definition Traced (A : Type) : Type := Node -> Outcome A * list Moment.

(** The outcome of a traced handler, its moments forgotten. *)
Definition erase {A : Type} (t : Traced A) : M A := fun n => fst (t n).

Definition erases {A : Type} (t : Traced A) (m : M A) : Prop :=
  forall n, erase t n = m n.

(** The counting loop. [nbrOfVotes] is at most [len(votes) + 1], and a slice
    is far shorter than [2 ^ 63], so the counter does not wrap. *)
Definition countVotes (votes : list bool) : Z :=
  fold_left (fun nbrOfVotes (vote : bool) =>
               if vote then nbrOfVotes + 1 else nbrOfVotes) votes 1.

Section Moments.

#[local] Instance Traced_ret : MRet Traced := fun A a n => (Returns a n [], []).

#[local] Instance Traced_bind : MBind Traced := fun A B f m n =>
  match m n with
  | (Returns a n1 sent1, moments1) =>
      let (o, moments2) := f a n1 in (prefixed sent1 o, moments1 ++ moments2)
  | (Panics why n1 sent1, moments1) => (Panics why n1 sent1, moments1)
  end.

(** One statement that writes the node: an assignment, a [Next], a signal
    to a timer. A statement that panics has written nothing. *)
Definition statement (m : M unit) : Traced unit := fun n =>
  (m n, match m n with
        | Returns _ n' _ => [Wrote n']
        | Panics _ _ _ => []
        end).

Definition reads : Traced Node := fun n => (get n, []).
Definition fails {A : Type} (why : Fatal) : Traced A := fun n => (panic why n, []).
Definition calls (c : RpcCall) : Traced unit := fun n => (send c n, [Called c n]).

Fixpoint forEach_traced {A B : Type} (body : A -> Traced B) (l : list A)
    : Traced (list B) :=
  match l with
  | [] => mret []
  | x :: rest => b ← body x; bs ← forEach_traced body rest; mret (b :: bs)
  end.

Definition switchToLeader_traced : Traced unit :=
  statement (statemachineNext LEADER);;
  statement (heartbeatTimerSend resetC);;
  statement (electionTimerSend stopC).

(** The fan-out of [executeElection]: one goroutine per peer stores the
    peer's answer in its own slot of [votes], and [wg.Wait] returns when all
    have. The goroutines read [n.currentTerm] and [n.id] and write nothing
    else, and the handler waits for them before it goes on: the slots do
    not depend on their interleaving, and each call is issued by the node
    as [executeElection] left it. The calls are listed in the order of
    [nodes]. A reply with a greater term enters the empty [if]. *)
Definition requestVotes_traced (nodes : list NodeRPC.t) : Traced (list bool) :=
  forEach_traced (fun rpcIf =>
    n ← reads;
    calls (CallRequestVote rpcIf (currentTerm n) (id n) 0 0);;
    let '(term, ok) := NodeRPC.RequestVote rpcIf (currentTerm n) (id n) 0 0 in
    (if term >? currentTerm n then mret tt else mret tt);;
    mret ok) nodes.

Definition executeElection_traced : Traced bool :=
  statement (modify (fun n => set_votedFor (Some (id n)) n));;
  n ← reads;
  match cluster n with
  | None => fails NilCluster
  | Some c =>
      let nodes := GetRemoteFollowers c (id n) in
      votes ← requestVotes_traced nodes;
      let nbrOfVotes := countVotes votes in
      let electionWon :=
        nbrOfVotes >=? Z.of_nat (length (allNodes c)) `quot` 2 + 1 in
      mret electionWon
  end.

Definition startElectionProcess_traced : Traced unit :=
  statement (modify (fun n => set_currentTerm (wrap (currentTerm n + 1)) n));;
  statement (statemachineNext CANDIDATE);;
  statement (modify (set_votedFor None));;
  electionWon ← executeElection_traced;
  if electionWon : bool then
    switchToLeader_traced
  else
    statement (statemachineNext FOLLOWER);;
    statement (electionTimerSend resetC).

Definition electionTimeout_traced : Traced unit :=
  n ← reads;
  if stopped n then mret tt
  else if isLeader n then fails ElectionTimeoutAsLeader
  else startElectionProcess_traced.

End Moments.

(** The handlers of the round as the rest of the node calls them: their
    outcome. *)
Definition switchToLeader : M unit := erase switchToLeader_traced.

Definition requestVotes (nodes : list NodeRPC.t) : M (list bool) :=
  erase (requestVotes_traced nodes).

Definition executeElection : M bool := erase executeElection_traced.

Definition startElectionProcess : M unit := erase startElectionProcess_traced.

Definition electionTimeout : M unit := erase electionTimeout_traced.

Definition switchToFollower : M unit :=
  n ← get;
  if isLeader n then
    heartbeatTimerSend stopC;;
    statemachineNext FOLLOWER
  else if isCandidate n then
    statemachineNext FOLLOWER
  else mret tt.

(** *** Leader only functions *)

(** The heartbeat closure is called in place (no [go]): the peers are
    visited one after the other, in the order of [nodes]. *)
Definition sendHeartbeats (nodes : list NodeRPC.t) : M (list bool) :=
  forEach (fun nodeRPC =>
    n ← get;
    send (CallAppendEntries nodeRPC (currentTerm n) (id n) 0 0 [] 0);;
    let '(term, ok) :=
      NodeRPC.AppendEntries nodeRPC (currentTerm n) (id n) 0 0 [] 0 in
    (if term >? currentTerm n then switchToFollower else mret tt);;
    mret ok) nodes.

Definition heatbeatTimeout : M unit :=
  n ← get;
  if stopped n then mret tt
  else if isNotLeader n then panic HeartbeatNotLeader
  else
    match cluster n with
    | None => panic NilCluster
    | Some c =>
        let nodes := GetRemoteFollowers c (id n) in
        _ ← sendHeartbeats nodes;
        mret tt
    end.

(** *** Follower RPC - heartbeat and replication *)

(** A nil slice and an empty one both have length 0: [entries] is a list. *)
Definition AppendEntries (term leaderID prevLogIndex prevLogTermin : Z)
    (entries : list string) (leaderCommit : Z) : M (Z * bool) :=
  n ← get;
  if stopped n then mret (currentTerm n, false)
  else if term <? currentTerm n then mret (currentTerm n, false)
  else
    returned ←
      (if term >? currentTerm n then
         modify (set_currentTerm term);;
         n ← get;
         if isLeader n || isCandidate n then
           switchToFollower;;
           n ← get;
           mret (Some (currentTerm n, false))
         else mret None
       else mret None);
    match returned with
    | Some result => mret result
    | None =>
        (if (length entries =? 0)%nat then electionTimerSend resetC
         else mret tt);;
        n ← get;
        mret (currentTerm n, true)
    end.

(** *** Follower RPC - leader election *)

Definition RequestVote (term candidateID lastLogIndex lastLogTerm : Z)
    : M (Z * bool) :=
  n ← get;
  if stopped n then mret (currentTerm n, false)
  else
    electionTimerSend resetC;;
    n ← get;
    if term <? currentTerm n then mret (currentTerm n, false)
    else if bool_decide (votedFor n ≠ None) && (term =? currentTerm n)
    then mret (currentTerm n, false)
    else
      (if term >? currentTerm n then
         modify (set_currentTerm term);;
         n ← get;
         if isCandidate n || isLeader n then switchToFollower else mret tt
       else mret tt);;
      modify (set_votedFor (Some candidateID));;
      n ← get;
      mret (currentTerm n, true).

(** *** Vocabulary of the properties *)

(** Self-vote plus the number of peers whose RequestVote reply grants. *)
Definition totalGrants (term self : Z) (peers : list NodeRPC.t) : Z :=
  1 + Z.of_nat (length (filter
        (fun p => snd (NodeRPC.RequestVote p term self 0 0) = true) peers)).

(** The quorum of a cluster of [N] nodes: floor (N / 2) + 1. *)
Definition quorum (N : nat) : Z := Z.of_nat N / 2 + 1.

(** A leader after [switchToFollower]. *)
Definition demoted (n : Node) : Node :=
  set_statemachine (inRole FOLLOWER)
    (set_heartbeatTimer (signal stopC (heartbeatTimer n)) n).

(** The node of an election round at the moment the fan-out starts: lines
    98 to 100 of [startElectionProcess] and line 116 of [executeElection]
    have run. *)
Definition candidacy (n : Node) : Node :=
  set_votedFor (Some (id n))
    (set_votedFor None
       (set_statemachine (inRole CANDIDATE)
          (set_currentTerm (wrap (currentTerm n + 1)) n))).

(** What [startElectionProcess] does with the result of the round. *)
Definition conclude (electionWon : bool) : M unit :=
  if electionWon then switchToLeader
  else statemachineNext FOLLOWER;; electionTimerSend resetC.

(** The tally of [executeElection] over the votes of cluster [c]. *)
Definition tally (c : Cluster) (votes : list bool) : bool :=
  countVotes votes >=? Z.of_nat (length (allNodes c)) `quot` 2 + 1.

(** The leader a candidate turns into: [switchToLeader]. *)
Definition elected (n : Node) : Node :=
  set_electionTimer (signal stopC (electionTimer n))
    (set_heartbeatTimer (signal resetC (heartbeatTimer n))
       (set_statemachine (inRole LEADER) n)).

(** An RPC a node is asked to serve. *)
Inductive Rpc : Type :=
| VoteRequest (term candidateID lastLogIndex lastLogTerm : Z)
| Entries (term leaderID prevLogIndex prevLogTermin : Z)
    (entries : list string) (leaderCommit : Z).

Definition serve (rpc : Rpc) : M (Z * bool) :=
  match rpc with
  | VoteRequest term candidateID lastLogIndex lastLogTerm =>
      RequestVote term candidateID lastLogIndex lastLogTerm
  | Entries term leaderID prevLogIndex prevLogTermin entries leaderCommit =>
      AppendEntries term leaderID prevLogIndex prevLogTermin entries leaderCommit
  end.

(** The terms of the votes granted, in the order of the calls. *)
Fixpoint grantedTerms (rpcs : list Rpc) (replies : list (Z * bool)) : list Z :=
  match rpcs, replies with
  | VoteRequest term _ _ _ :: rpcs', (_, true) :: replies' =>
      term :: grantedTerms rpcs' replies'
  | _ :: rpcs', _ :: replies' => grantedTerms rpcs' replies'
  | _, _ => []
  end.

(** The node [Stop] has written when it reaches [Next]. *)
Definition halted (n : Node) : Node :=
  set_electionTimer (signal stopC (electionTimer n))
    (set_heartbeatTimer (signal stopC (heartbeatTimer n))
       (set_stopped true n)).

(** The node an outcome leaves. *)
Definition nodeOf {A : Type} (o : Outcome A) : Node :=
  match o with
  | Returns _ n _ => n
  | Panics _ n _ => n
  end.

(** A handler that leaves the transition table as it found it. *)
Definition keepsTable {A : Type} (m : M A) : Prop :=
  forall n,
    validTransitions (statemachine (nodeOf (m n)))
      = validTransitions (statemachine n).

(** *** Nodes used in the worked examples *)

(** [NewNode 0] after [Start]. *)
Definition started (c : Cluster) : Node :=
  set_electionTimer (signal resetC createPeriodicTimer)
    (set_cluster (Some c) (NewNode 0)).

(** [started c] after it granted its vote to candidate 1 in term [term]. *)
Definition votedIn (term : Z) (c : Cluster) : Node :=
  set_votedFor (Some 1)
    (set_currentTerm term
       (set_electionTimer (signal resetC (electionTimer (started c)))
          (started c))).

(** [started c] after it won the election of term 1. *)
Definition leading (c : Cluster) : Node := elected (candidacy (started c)).

(** The node carries the transition table [NewStatemachine] built: the table
    is written once, in the constructor. *)
Definition wellFormed (n : Node) : Prop :=
  validTransitions (statemachine n) = validTransitions NewStatemachine.

(** *** Every entry point of a node *)

(** What can happen to a node: the two lifecycle calls, the two timer
    callbacks, and the two RPCs. *)
Inductive Event : Type :=
| DoStart (c : option Cluster)
| DoStop
| ElectionTimerFires
| HeartbeatTimerFires
| Receives (rpc : Rpc).

Definition handle (e : Event) : M (option (Z * bool)) :=
  match e with
  | DoStart c => Start c;; mret None
  | DoStop => Stop;; mret None
  | ElectionTimerFires => electionTimeout;; mret None
  | HeartbeatTimerFires => heatbeatTimeout;; mret None
  | Receives rpc => reply ← serve rpc; mret (Some reply)
  end.

(** The nodes reached from [NewNode i] through handlers that returned. *)
Inductive reachable (i : Z) : Node -> Prop :=
| reachable_new : reachable i (NewNode i)
| reachable_step n e r n' sent :
    reachable i n -> handle e n = Returns r n' sent -> reachable i n'.

(** An event other than [Start] and [Stop]. *)
Definition quiet (e : Event) : Prop :=
  match e with
  | DoStart _ | DoStop => False
  | _ => True
  end.

(** What a stopped node answers to an event. *)
Definition refusal (term : Z) (e : Event) : option (Z * bool) :=
  match e with
  | Receives _ => Some (term, false)
  | _ => None
  end.

(** A node after [switchToFollower], by the role it had. *)
Definition stepDown (n : Node) : Node :=
  match Current (statemachine n) with
  | LEADER => demoted n
  | CANDIDATE => set_statemachine (inRole FOLLOWER) n
  | FOLLOWER => n
  end.

(** A candidate after a lost election: lines 107 and 108 of
    [startElectionProcess]. *)
Definition defeated (n : Node) : Node :=
  set_electionTimer (signal resetC (electionTimer n))
    (set_statemachine (inRole FOLLOWER) n).

(** A node after [Start]. *)
Definition restarted (c : option Cluster) (n : Node) : Node :=
  set_electionTimer (signal resetC (electionTimer n))
    (set_cluster c (set_stopped false n)).

(** What holds of a node between two handlers. *)
Definition atRest (i : Z) (n : Node) : Prop :=
  wellFormed n /\ id n = i /\ replicatedLog n = NewReplicatedLog /\
  Current (statemachine n) <> CANDIDATE /\
  (armed (heartbeatTimer n) = true <-> Current (statemachine n) = LEADER) /\
  (Current (statemachine n) = LEADER -> votedFor n = Some i).

(** The term of the vote a reply to an event grants, if it grants one. *)
Definition voteGranted (e : Event) (reply : option (Z * bool)) : option Z :=
  match e, reply with
  | Receives (VoteRequest term _ _ _), Some (_, true) => Some term
  | _, _ => None
  end.

(** The terms of the votes granted over a run of events, in the order of
    the calls. *)
Fixpoint votesGranted (events : list Event) (replies : list (option (Z * bool)))
    : list Z :=
  match events, replies with
  | e :: events', reply :: replies' =>
      match voteGranted e reply with
      | Some term => term :: votesGranted events' replies'
      | None => votesGranted events' replies'
      end
  | _, _ => []
  end.

(** [n.currentTerm++] of [startElectionProcess] wraps: the election timer
    fires on a live node that is not the leader and whose term is the
    greatest int. *)
Definition wrapsAt (e : Event) (n : Node) : bool :=
  match e with
  | ElectionTimerFires =>
      negb (stopped n) && isNotLeader n && (int_max <=? currentTerm n)
  | _ => false
  end.

(** Some election timeout of the run wraps the term. *)
Fixpoint wraps (events : list Event) (n : Node) : bool :=
  match events with
  | [] => false
  | e :: rest =>
      wrapsAt e n ||
      match handle e n with
      | Returns _ n' _ => wraps rest n'
      | Panics _ _ _ => false
      end
  end.

(** * Properties *)

(** ** Go integers *)

Lemma wrap_in_range z : int_min <= z <= int_max -> wrap z = z.
Proof.
  unfold wrap, int_min, int_max. intros H.
  rewrite Z.mod_small; lia.
Qed.

Lemma wrap_succ z : int_min <= z < int_max -> wrap (z + 1) = z + 1.
Proof. intros H. apply wrap_in_range. unfold int_min, int_max in *. lia. Qed.

Lemma wrap_succ_int_max : wrap (int_max + 1) = int_min.
Proof. reflexivity. Qed.

(** ** The role state machine *)

Lemma Next_inRole cur next :
  Next next (inRole cur) =
    match cur, next with
    | FOLLOWER, CANDIDATE | CANDIDATE, _ | LEADER, FOLLOWER => inr (inRole next)
    | _, _ => inl (StateChangeNotAllowed cur next)
    end.
Proof. destruct cur, next; vm_compute; reflexivity. Qed.

Lemma legal_dec cur next :
  legal cur next <->
    match cur, next with
    | FOLLOWER, CANDIDATE | CANDIDATE, _ | LEADER, FOLLOWER => True
    | _, _ => False
    end.
Proof.
  split.
  - intros H. destruct H; exact I.
  - destruct cur, next; intros H; try contradiction; constructor.
Qed.

Lemma wellFormed_inRole n :
  wellFormed n -> statemachine n = inRole (Current (statemachine n)).
Proof.
  unfold wellFormed, inRole, Current. destruct (statemachine n) as [cur table].
  simpl. intros ->. reflexivity.
Qed.

(** ** Running a handler *)

Lemma prefixed_nil {A} (o : Outcome A) : prefixed [] o = o.
Proof. destruct o; reflexivity. Qed.

Lemma prefixed_prefixed {A} s1 s2 (o : Outcome A) :
  prefixed s1 (prefixed s2 o) = prefixed (s1 ++ s2) o.
Proof. destruct o; simpl; rewrite app_assoc; reflexivity. Qed.

Lemma run_bind {A B} (m : M A) (f : A -> M B) n a n1 sent1 :
  m n = Returns a n1 sent1 -> (m ≫= f) n = prefixed sent1 (f a n1).
Proof. intros H. unfold mbind, M_bind. rewrite H. reflexivity. Qed.

Lemma run_assoc {A B C} (m : M A) (f : A -> M B) (g : B -> M C) n :
  ((m ≫= f) ≫= g) n = (m ≫= (fun a => f a ≫= g)) n.
Proof.
  unfold mbind, M_bind. destruct (m n) as [a n1 s1 | why n1 s1]; [| reflexivity].
  destruct (f a n1) as [b n2 s2 | why n2 s2]; [| reflexivity].
  simpl. rewrite prefixed_prefixed. reflexivity.
Qed.

Lemma run_get {B} (f : Node -> M B) n : (get ≫= f) n = f n n.
Proof. unfold mbind, M_bind, get. apply prefixed_nil. Qed.

Lemma run_modify {B} g (f : unit -> M B) n : (modify g ≫= f) n = f tt (g n).
Proof. unfold mbind, M_bind, modify. apply prefixed_nil. Qed.

Lemma run_ret {A B} (a : A) (f : A -> M B) n : (mret a ≫= f) n = f a n.
Proof. unfold mbind, M_bind, mret, M_ret. apply prefixed_nil. Qed.

Lemma run_mret {A} (a : A) n : mret (M := M) a n = Returns a n [].
Proof. reflexivity. Qed.

Lemma run_send {B} c (f : unit -> M B) n :
  (send c ≫= f) n = prefixed [c] (f tt n).
Proof. reflexivity. Qed.

Lemma run_electionTimerSend {B} sig (f : unit -> M B) n :
  (electionTimerSend sig ≫= f) n =
    f tt (set_electionTimer (signal sig (electionTimer n)) n).
Proof. unfold electionTimerSend. rewrite run_modify. reflexivity. Qed.

Lemma run_heartbeatTimerSend {B} sig (f : unit -> M B) n :
  (heartbeatTimerSend sig ≫= f) n =
    f tt (set_heartbeatTimer (signal sig (heartbeatTimer n)) n).
Proof. unfold heartbeatTimerSend. rewrite run_modify. reflexivity. Qed.

Ltac run :=
  repeat first
    [ rewrite run_assoc
    | rewrite run_get
    | rewrite run_modify
    | rewrite run_ret
    | rewrite run_send
    | rewrite run_mret
    | rewrite app_nil_r
    | rewrite run_electionTimerSend
    | rewrite run_heartbeatTimerSend
    | rewrite prefixed_nil
    | progress simpl ].

(** ** AppendEntries *)

(** C8. On a node that is not stopped, an AppendEntries call whose term is
    strictly less than the node's current term returns (ownTerm, false) and
    leaves the node as it was: no signal reaches the election timer, and
    currentTerm, votedFor and the role are unchanged. No RPC is sent. *)
Theorem AppendEntries_stale_term_rejected
    (n : Node) (term leaderID prevLogIndex prevLogTermin : Z)
    (entries : list string) (leaderCommit : Z) :
  stopped n = false ->
  term < currentTerm n ->
  AppendEntries term leaderID prevLogIndex prevLogTermin entries leaderCommit n
    = Returns (currentTerm n, false) n [].
Proof.
  intros Hlive Hstale. unfold AppendEntries. run.
  rewrite Hlive.
  destruct (Z.ltb_spec term (currentTerm n)) as [_ | Hge]; [reflexivity | lia].
Qed.

Lemma set_currentTerm_same n : set_currentTerm (currentTerm n) n = n.
Proof. destruct n; reflexivity. Qed.

Lemma isLeader_follower n :
  Current (statemachine n) = FOLLOWER -> isLeader n = false.
Proof. unfold isLeader. intros ->. reflexivity. Qed.

Lemma isLeader_leader n :
  Current (statemachine n) = LEADER -> isLeader n = true.
Proof. unfold isLeader. intros ->. reflexivity. Qed.

Lemma isLeader_candidate n :
  Current (statemachine n) = CANDIDATE -> isLeader n = false.
Proof. unfold isLeader. intros ->. reflexivity. Qed.

Lemma isCandidate_candidate n :
  Current (statemachine n) = CANDIDATE -> isCandidate n = true.
Proof. unfold isCandidate. intros ->. reflexivity. Qed.

Lemma isCandidate_follower n :
  Current (statemachine n) = FOLLOWER -> isCandidate n = false.
Proof. unfold isCandidate. intros ->. reflexivity. Qed.

(** C10. On a node that is not stopped and is a FOLLOWER, an AppendEntries
    call with a term at least the node's current term and a non-empty
    entries list returns (currentTerm, true), where currentTerm is the
    node's term after the call (the caller's term). The answer is the same
    for every replicated log, prevLogIndex, prevLogTerm and leaderCommit:
    nothing is checked against the log. The election timer receives no
    signal; the node changes in its currentTerm only. *)
Theorem AppendEntries_entries_always_accepted
    (n : Node) (term leaderID prevLogIndex prevLogTermin : Z)
    (entries : list string) (leaderCommit : Z) :
  stopped n = false ->
  Current (statemachine n) = FOLLOWER ->
  currentTerm n <= term ->
  entries <> [] ->
  let n' := set_currentTerm term n in
  AppendEntries term leaderID prevLogIndex prevLogTermin entries leaderCommit n
    = Returns (currentTerm n', true) n' []
  /\ electionTimer n' = electionTimer n.
Proof.
  intros Hlive Hrole Hterm Hentries n'. split; [| reflexivity].
  unfold AppendEntries. run. rewrite Hlive.
  destruct (Z.ltb_spec term (currentTerm n)) as [Hlt | _]; [lia |].
  assert (Hlen : (length entries =? 0)%nat = false).
  { destruct entries; [congruence | reflexivity]. }
  destruct (Z.gtb_spec term (currentTerm n)) as [Hgt | Hle]; run.
  - rewrite (isLeader_follower (set_currentTerm term n) Hrole),
      (isCandidate_follower (set_currentTerm term n) Hrole).
    run. rewrite Hlen. run. reflexivity.
  - rewrite Hlen. run.
    assert (term = currentTerm n) as -> by lia.
    subst n'. rewrite set_currentTerm_same. reflexivity.
Qed.

(** ** Role changes of a node *)

Lemma statemachineNext_wellFormed n next :
  wellFormed n ->
  statemachineNext next n =
    match Next next (inRole (Current (statemachine n))) with
    | inr s => Returns tt (set_statemachine s n) []
    | inl why => Panics why n []
    end.
Proof.
  intros Hwf. unfold statemachineNext.
  rewrite (wellFormed_inRole n Hwf) at 1. reflexivity.
Qed.

Lemma run_statemachineNext {B} next (f : unit -> M B) n :
  wellFormed n ->
  legal (Current (statemachine n)) next ->
  (statemachineNext next ≫= f) n = f tt (set_statemachine (inRole next) n).
Proof.
  intros Hwf Hlegal.
  rewrite (run_bind _ _ n tt (set_statemachine (inRole next) n) []).
  - apply prefixed_nil.
  - rewrite statemachineNext_wellFormed by assumption.
    rewrite Next_inRole. destruct Hlegal; reflexivity.
Qed.

Lemma statemachineNext_legal next n :
  wellFormed n ->
  legal (Current (statemachine n)) next ->
  statemachineNext next n = Returns tt (set_statemachine (inRole next) n) [].
Proof.
  intros Hwf Hlegal. rewrite statemachineNext_wellFormed by assumption.
  rewrite Next_inRole. destruct Hlegal; reflexivity.
Qed.

Lemma statemachineNext_illegal next n :
  wellFormed n ->
  ~ legal (Current (statemachine n)) next ->
  statemachineNext next n =
    Panics (StateChangeNotAllowed (Current (statemachine n)) next) n [].
Proof.
  intros Hwf Hill. rewrite statemachineNext_wellFormed by assumption.
  rewrite Next_inRole. rewrite legal_dec in Hill.
  destruct (Current (statemachine n)), next; simpl in *; tauto.
Qed.

(** What [statemachineNext] can touch: the state machine, nothing else. *)
Lemma statemachineNext_frame next n a n1 sent :
  statemachineNext next n = Returns a n1 sent ->
  exists s, n1 = set_statemachine s n /\ sent = [].
Proof.
  unfold statemachineNext.
  destruct (Next next (statemachine n)) as [why | s]; [discriminate |].
  intros [= _ <- <-]. eauto.
Qed.

Lemma switchToFollower_follower n :
  Current (statemachine n) = FOLLOWER -> switchToFollower n = Returns tt n [].
Proof.
  intros Hrole. unfold switchToFollower. run.
  rewrite (isLeader_follower n Hrole), (isCandidate_follower n Hrole).
  reflexivity.
Qed.

Lemma switchToFollower_leader n :
  wellFormed n ->
  Current (statemachine n) = LEADER ->
  switchToFollower n =
    Returns tt
      (set_statemachine (inRole FOLLOWER)
         (set_heartbeatTimer (signal stopC (heartbeatTimer n)) n)) [].
Proof.
  intros Hwf Hrole. unfold switchToFollower. run.
  rewrite (isLeader_leader n Hrole). run.
  apply statemachineNext_legal; [exact Hwf |].
  simpl. rewrite Hrole. constructor.
Qed.

Lemma switchToFollower_candidate n :
  wellFormed n ->
  Current (statemachine n) = CANDIDATE ->
  switchToFollower n = Returns tt (set_statemachine (inRole FOLLOWER) n) [].
Proof.
  intros Hwf Hrole. unfold switchToFollower. run.
  rewrite (isLeader_candidate n Hrole), (isCandidate_candidate n Hrole).
  apply statemachineNext_legal; [exact Hwf |].
  rewrite Hrole. constructor.
Qed.

(** [switchToFollower] leaves the term, the vote, the stop flag, the
    election timer and the cluster alone, and sends no RPC. *)
Lemma switchToFollower_frame n a n1 sent :
  switchToFollower n = Returns a n1 sent ->
  currentTerm n1 = currentTerm n /\ votedFor n1 = votedFor n /\
  stopped n1 = stopped n /\ id n1 = id n /\
  electionTimer n1 = electionTimer n /\ cluster n1 = cluster n /\ sent = [].
Proof.
  unfold switchToFollower. run.
  destruct (isLeader n); run.
  - intros H. apply statemachineNext_frame in H as (s & -> & ->).
    repeat split.
  - destruct (isCandidate n).
    + intros H. apply statemachineNext_frame in H as (s & -> & ->).
      repeat split.
    + intros [= _ <- <-]. repeat split.
Qed.

(** ** RequestVote *)

(** [RequestVote] on a live node, branch by branch. *)
Lemma RequestVote_live n term candidateID lastLogIndex lastLogTerm :
  stopped n = false ->
  RequestVote term candidateID lastLogIndex lastLogTerm n =
    let nr := set_electionTimer (signal resetC (electionTimer n)) n in
    if term <? currentTerm n then Returns (currentTerm n, false) nr []
    else if bool_decide (votedFor n ≠ None) && (term =? currentTerm n)
    then Returns (currentTerm n, false) nr []
    else
      match
        (if term >? currentTerm n
         then (if isCandidate n || isLeader n then switchToFollower else mret tt)
                (set_currentTerm term nr)
         else Returns tt nr [])
      with
      | Returns _ m sent =>
          Returns (currentTerm m, true) (set_votedFor (Some candidateID) m) sent
      | Panics why m sent => Panics why m sent
      end.
Proof.
  intros Hlive. unfold RequestVote. run. rewrite Hlive. run.
  destruct (term <? currentTerm n); [reflexivity |].
  destruct (bool_decide (votedFor n ≠ None) && (term =? currentTerm n));
    [reflexivity |].
  destruct (term >? currentTerm n); run; [| reflexivity].
  change (isCandidate (set_currentTerm term
            (set_electionTimer (signal resetC (electionTimer n)) n)))
    with (isCandidate n).
  change (isLeader (set_currentTerm term
            (set_electionTimer (signal resetC (electionTimer n)) n)))
    with (isLeader n).
  destruct (isCandidate n || isLeader n).
  - unfold mbind, M_bind.
    destruct (switchToFollower _) as [[] m sent | why m sent]; [| reflexivity].
    simpl. rewrite app_nil_r. reflexivity.
  - run. reflexivity.
Qed.

(** A granted vote: the term asked for is not behind the node's, it is ahead
    when the node had already voted, and the node is left in that term with
    its vote recorded. *)
Lemma RequestVote_granted n term candidateID lastLogIndex lastLogTerm t n1 sent :
  stopped n = false ->
  RequestVote term candidateID lastLogIndex lastLogTerm n = Returns (t, true) n1 sent ->
  t = term /\ currentTerm n1 = term /\ votedFor n1 = Some candidateID /\
  stopped n1 = false /\ sent = [] /\ currentTerm n <= term /\
  (votedFor n <> None -> currentTerm n < term).
Proof.
  intros Hlive. rewrite RequestVote_live by assumption. cbv zeta.
  destruct (Z.ltb_spec term (currentTerm n)) as [| Hge]; [discriminate |].
  destruct (bool_decide_reflect (votedFor n ≠ None)) as [Hvoted | Hfree];
    destruct (Z.eqb_spec term (currentTerm n)) as [Heq | Hne];
    simpl; try discriminate.
  - (* voted, asked for a later term *)
    destruct (Z.gtb_spec term (currentTerm n)) as [Hgt | Hle]; [| lia].
    destruct (isCandidate n || isLeader n).
    + destruct (switchToFollower _) as [[] m s | why m s] eqn:Hswitch;
        [| discriminate].
      apply switchToFollower_frame in Hswitch as (Hterm & _ & Hstop & _ & _ & _ & ->).
      intros [= <- <- <-]. simpl. rewrite Hterm, Hstop. simpl. auto 10.
    + intros [= <- <- <-]. simpl. auto 10.
  - (* not voted, same term *)
    destruct (Z.gtb_spec term (currentTerm n)) as [Hgt | Hle]; [lia |].
    intros [= <- <- <-]. simpl. subst term. repeat split; try lia; try assumption.
    intros Hv. exfalso. apply Hfree. exact Hv.
  - (* not voted, later term *)
    destruct (Z.gtb_spec term (currentTerm n)) as [Hgt | Hle]; [| lia].
    destruct (isCandidate n || isLeader n).
    + destruct (switchToFollower _) as [[] m s | why m s] eqn:Hswitch;
        [| discriminate].
      apply switchToFollower_frame in Hswitch as (Hterm & _ & Hstop & _ & _ & _ & ->).
      intros [= <- <- <-]. simpl. rewrite Hterm, Hstop. simpl. auto 10.
    + intros [= <- <- <-]. simpl. auto 10.
Qed.

(** A live node that has voted denies every request for its current term. *)
Lemma RequestVote_already_voted n term candidateID lastLogIndex lastLogTerm :
  stopped n = false ->
  votedFor n <> None ->
  term = currentTerm n ->
  RequestVote term candidateID lastLogIndex lastLogTerm n =
    Returns (currentTerm n, false)
      (set_electionTimer (signal resetC (electionTimer n)) n) [].
Proof.
  intros Hlive Hvoted ->. rewrite RequestVote_live by assumption. cbv zeta.
  rewrite Z.ltb_irrefl, Z.eqb_refl.
  rewrite bool_decide_eq_true_2 by assumption. reflexivity.
Qed.


(** ** The fan-outs *)

(** ** The outcomes of the election round *)

Lemma erases_erase {A} (t : Traced A) : erases t (erase t).
Proof. intros n. reflexivity. Qed.

Lemma erases_ret {A} (a : A) : erases (Traced_ret A a) (mret a).
Proof. intros n. reflexivity. Qed.

Lemma erases_bind {A B} (t : Traced A) (f : A -> Traced B) (m : M A) (g : A -> M B) :
  erases t m -> (forall a, erases (f a) (g a)) ->
  erases (Traced_bind A B f t) (m ≫= g).
Proof.
  intros Ht Hf n. unfold erase, Traced_bind, mbind, M_bind.
  specialize (Ht n). unfold erase in Ht.
  destruct (t n) as [[a n1 sent1 | why n1 sent1] moments1];
    simpl in Ht; rewrite <- Ht; [| reflexivity].
  specialize (Hf a n1). unfold erase in Hf. destruct (f a n1) as [o moments2].
  simpl in *. rewrite Hf. reflexivity.
Qed.

Lemma erases_statement (m : M unit) : erases (statement m) m.
Proof. intros n. reflexivity. Qed.

Lemma erases_reads : erases reads get.
Proof. intros n. reflexivity. Qed.

Lemma erases_fails {A} why : erases (fails (A := A) why) (panic why).
Proof. intros n. reflexivity. Qed.

Lemma erases_calls c : erases (calls c) (send c).
Proof. intros n. reflexivity. Qed.

Lemma erases_forEach {A B} (body : A -> Traced B) (body' : A -> M B) l :
  (forall x, erases (body x) (body' x)) ->
  erases (forEach_traced body l) (forEach body' l).
Proof.
  intros Hbody. induction l as [| x rest IH]; simpl.
  - apply erases_ret.
  - apply erases_bind; [apply Hbody |]. intros b.
    apply erases_bind; [exact IH |]. intros bs. apply erases_ret.
Qed.

Ltac erase :=
  repeat first
    [ apply erases_bind; [| intros ?]
    | apply erases_ret
    | apply erases_statement
    | apply erases_reads
    | apply erases_fails
    | apply erases_calls
    | apply erases_erase
    | apply erases_forEach; intros ?
    | match goal with
      | |- erases (if ?b then _ else _) _ => destruct b
      | |- erases (match ?x with _ => _ end) _ => destruct x
      end ].

Lemma switchToLeader_body n :
  switchToLeader n
    = (statemachineNext LEADER;;
       heartbeatTimerSend resetC;;
       electionTimerSend stopC) n.
Proof.
  revert n. change (erases switchToLeader_traced
    (statemachineNext LEADER;; heartbeatTimerSend resetC;; electionTimerSend stopC)).
  unfold switchToLeader_traced. unfold mbind at 1 2. erase.
Qed.

Lemma requestVotes_body nodes n :
  requestVotes nodes n
    = forEach (fun rpcIf =>
        n ← get;
        send (CallRequestVote rpcIf (currentTerm n) (id n) 0 0);;
        let '(term, ok) := NodeRPC.RequestVote rpcIf (currentTerm n) (id n) 0 0 in
        (if term >? currentTerm n then mret tt else mret tt);;
        mret ok) nodes n.
Proof.
  revert n.
  match goal with
  | |- forall n, _ = ?m n => change (erases (requestVotes_traced nodes) m)
  end.
  unfold requestVotes_traced. erase.
Qed.

Lemma executeElection_body n :
  executeElection n
    = (modify (fun n => set_votedFor (Some (id n)) n);;
       n ← get;
       match cluster n with
       | None => panic NilCluster
       | Some c =>
           let nodes := GetRemoteFollowers c (id n) in
           votes ← requestVotes nodes;
           let nbrOfVotes := countVotes votes in
           let electionWon :=
             nbrOfVotes >=? Z.of_nat (length (allNodes c)) `quot` 2 + 1 in
           mret electionWon
       end) n.
Proof.
  revert n.
  match goal with
  | |- forall n, _ = ?m n => change (erases executeElection_traced m)
  end.
  unfold executeElection_traced.
  apply erases_bind; [apply erases_statement | intros _].
  apply erases_bind; [apply erases_reads | intros n].
  destruct (cluster n) as [c |]; [| apply erases_fails].
  apply erases_bind; [apply erases_erase | intros votes].
  apply erases_ret.
Qed.

Lemma startElectionProcess_body n :
  startElectionProcess n
    = (modify (fun n => set_currentTerm (wrap (currentTerm n + 1)) n);;
       statemachineNext CANDIDATE;;
       modify (set_votedFor None);;
       electionWon ← executeElection;
       if electionWon : bool then
         switchToLeader
       else
         statemachineNext FOLLOWER;;
         electionTimerSend resetC) n.
Proof.
  revert n.
  match goal with
  | |- forall n, _ = ?m n => change (erases startElectionProcess_traced m)
  end.
  unfold startElectionProcess_traced.
  do 3 (apply erases_bind; [apply erases_statement | intros _]).
  apply erases_bind; [apply erases_erase | intros [|]].
  - apply erases_erase.
  - apply erases_bind; [apply erases_statement | intros _].
    apply erases_statement.
Qed.

Lemma electionTimeout_body n :
  electionTimeout n
    = (n ← get;
       if stopped n then mret tt
       else if isLeader n then panic ElectionTimeoutAsLeader
       else startElectionProcess) n.
Proof.
  revert n.
  match goal with
  | |- forall n, _ = ?m n => change (erases electionTimeout_traced m)
  end.
  unfold electionTimeout_traced.
  apply erases_bind; [apply erases_reads | intros n].
  destruct (stopped n); [apply erases_ret |].
  destruct (isLeader n); [apply erases_fails | apply erases_erase].
Qed.

Lemma bind_outcome {A B} (m m' : M A) (f : A -> M B) n :
  m n = m' n -> (m ≫= f) n = (m' ≫= f) n.
Proof. intros H. unfold mbind, M_bind. rewrite H. reflexivity. Qed.

Lemma requestVotes_run nodes n :
  requestVotes nodes n =
    Returns
      (map (fun p => snd (NodeRPC.RequestVote p (currentTerm n) (id n) 0 0)) nodes)
      n
      (map (fun p => CallRequestVote p (currentTerm n) (id n) 0 0) nodes).
Proof.
  rewrite requestVotes_body. induction nodes as [| p rest IH]; [reflexivity |].
  simpl forEach. run.
  destruct (NodeRPC.RequestVote p (currentTerm n) (id n) 0 0) as [term ok].
  destruct (term >? currentTerm n); run;
    rewrite (run_bind _ _ _ _ _ _ IH); run; reflexivity.
Qed.

(** A follower sends its heartbeats and stays as it is. *)
Lemma sendHeartbeats_follower nodes n :
  Current (statemachine n) = FOLLOWER ->
  sendHeartbeats nodes n =
    Returns
      (map (fun p => snd (NodeRPC.AppendEntries p (currentTerm n) (id n) 0 0 [] 0)) nodes)
      n
      (map (fun p => CallAppendEntries p (currentTerm n) (id n) 0 0 [] 0) nodes).
Proof.
  intros Hrole. unfold sendHeartbeats.
  induction nodes as [| p rest IH]; [reflexivity |].
  simpl forEach. run.
  destruct (NodeRPC.AppendEntries p (currentTerm n) (id n) 0 0 [] 0) as [term ok].
  destruct (term >? currentTerm n); run.
  - rewrite (run_bind _ _ _ _ _ _ (switchToFollower_follower n Hrole)). run.
    rewrite (run_bind _ _ _ _ _ _ IH). run. reflexivity.
  - rewrite (run_bind _ _ _ _ _ _ IH). run. reflexivity.
Qed.

(** A leader is demoted by the first reply with a greater term, and the
    remaining peers are still called. *)
Lemma sendHeartbeats_leader nodes n :
  wellFormed n ->
  Current (statemachine n) = LEADER ->
  sendHeartbeats nodes n =
    Returns
      (map (fun p => snd (NodeRPC.AppendEntries p (currentTerm n) (id n) 0 0 [] 0)) nodes)
      (if existsb (fun p =>
            fst (NodeRPC.AppendEntries p (currentTerm n) (id n) 0 0 [] 0)
              >? currentTerm n) nodes
       then demoted n else n)
      (map (fun p => CallAppendEntries p (currentTerm n) (id n) 0 0 [] 0) nodes).
Proof.
  intros Hwf Hrole. unfold sendHeartbeats.
  induction nodes as [| p rest IH]; [reflexivity |].
  simpl forEach. run.
  destruct (NodeRPC.AppendEntries p (currentTerm n) (id n) 0 0 [] 0) as [term ok].
  simpl. destruct (term >? currentTerm n); run.
  - rewrite (run_bind _ _ _ _ _ _ (switchToFollower_leader n Hwf Hrole)). run.
    pose proof (sendHeartbeats_follower rest (demoted n) eq_refl) as Hrest.
    unfold sendHeartbeats in Hrest.
    rewrite (run_bind _ _ _ _ _ _ Hrest). run. reflexivity.
  - rewrite (run_bind _ _ _ _ _ _ IH). run. reflexivity.
Qed.

(** ** Heartbeat *)

(** C6. In a heartbeat cycle of a LEADER that is not stopped, when the
    AppendEntries reply of some peer reports a term strictly greater than
    the leader's current term, the cycle ends with the node a FOLLOWER and
    its heartbeat timer stopped (one stop signal, the timer disarmed);
    nothing else of the node changes. *)
Theorem heatbeatTimeout_greater_term_demotes
    (n : Node) (c : Cluster) (p : NodeRPC.t) :
  stopped n = false ->
  wellFormed n ->
  Current (statemachine n) = LEADER ->
  cluster n = Some c ->
  p ∈ GetRemoteFollowers c (id n) ->
  currentTerm n < fst (NodeRPC.AppendEntries p (currentTerm n) (id n) 0 0 [] 0) ->
  exists sent,
    heatbeatTimeout n = Returns tt (demoted n) sent
    /\ Current (statemachine (demoted n)) = FOLLOWER
    /\ heartbeatTimer (demoted n) = signal stopC (heartbeatTimer n)
    /\ armed (heartbeatTimer (demoted n)) = false.
Proof.
  intros Hlive Hwf Hrole Hcluster Hpeer Hgreater.
  eexists. split; [| repeat split].
  unfold heatbeatTimeout. run. rewrite Hlive.
  unfold isNotLeader. rewrite (isLeader_leader n Hrole). simpl.
  rewrite Hcluster.
  rewrite (run_bind _ _ _ _ _ _ (sendHeartbeats_leader _ n Hwf Hrole)).
  replace (existsb _ _) with true; [run; reflexivity |].
  symmetry. apply existsb_exists. exists p. split.
  - apply list_elem_of_In. exact Hpeer.
  - apply Z.gtb_lt. exact Hgreater.
Qed.

(** ** Election *)

Lemma countVotes_from acc (votes : list bool) :
  fold_left (fun nbrOfVotes (vote : bool) =>
               if vote then nbrOfVotes + 1 else nbrOfVotes) votes acc
  = acc + Z.of_nat (length (filter (fun vote => vote = true) votes)).
Proof.
  revert acc. induction votes as [| vote rest IH]; intros acc; simpl.
  - lia.
  - rewrite IH, filter_cons. destruct vote; simpl; lia.
Qed.

Lemma countVotes_totalGrants term self peers :
  countVotes (map (fun p => snd (NodeRPC.RequestVote p term self 0 0)) peers)
  = totalGrants term self peers.
Proof.
  unfold countVotes, totalGrants. rewrite countVotes_from. do 2 f_equal.
  induction peers as [| p rest IH]; [reflexivity |].
  simpl map. rewrite !filter_cons.
  destruct (snd (NodeRPC.RequestVote p term self 0 0)).
  - rewrite !decide_True by reflexivity. simpl. rewrite IH. reflexivity.
  - rewrite !decide_False by discriminate. exact IH.
Qed.

Lemma tally_quorum c votes :
  tally c votes = true <-> quorum (length (allNodes c)) <= countVotes votes.
Proof.
  unfold tally, quorum.
  rewrite Z.quot_div_nonneg by lia.
  rewrite Z.geb_le. reflexivity.
Qed.

Lemma executeElection_run n c :
  cluster n = Some c ->
  executeElection n =
    Returns
      (tally c (map (fun p => snd (NodeRPC.RequestVote p (currentTerm n) (id n) 0 0))
                  (GetRemoteFollowers c (id n))))
      (set_votedFor (Some (id n)) n)
      (map (fun p => CallRequestVote p (currentTerm n) (id n) 0 0)
         (GetRemoteFollowers c (id n))).
Proof.
  intros Hcluster. rewrite executeElection_body. run. rewrite Hcluster.
  rewrite (run_bind _ _ _ _ _ _ (requestVotes_run _ _)). run. reflexivity.
Qed.

Lemma isLeader_not_leader n :
  Current (statemachine n) <> LEADER -> isLeader n = false.
Proof. intros H. unfold isLeader. apply bool_decide_eq_false_2. exact H. Qed.

Lemma legal_to_candidate r : r <> LEADER -> legal r CANDIDATE.
Proof. destruct r; [constructor | constructor | congruence]. Qed.

(** An election timeout on a live node that is not the leader: the node
    becomes the candidate of the next term, votes for itself, asks its
    peers, and concludes. *)
Lemma electionTimeout_live n :
  stopped n = false ->
  Current (statemachine n) <> LEADER ->
  wellFormed n ->
  electionTimeout n =
    match cluster n with
    | None => Panics NilCluster (candidacy n) []
    | Some c =>
        let peers := GetRemoteFollowers c (id n) in
        let term := wrap (currentTerm n + 1) in
        prefixed
          (map (fun p => CallRequestVote p term (id n) 0 0) peers)
          (conclude
             (tally c (map (fun p => snd (NodeRPC.RequestVote p term (id n) 0 0)) peers))
             (candidacy n))
    end.
Proof.
  intros Hlive Hrole Hwf. rewrite electionTimeout_body. run.
  rewrite Hlive, (isLeader_not_leader n Hrole).
  rewrite startElectionProcess_body. run.
  rewrite run_statemachineNext;
    [| exact Hwf | apply legal_to_candidate; exact Hrole].
  run. destruct (cluster n) as [c |] eqn:Hcluster.
  - rewrite (run_bind _ _ _ _ _ _
               (executeElection_run
                  (set_votedFor None
                     (set_statemachine (inRole CANDIDATE)
                        (set_currentTerm (wrap (currentTerm n + 1)) n))) c Hcluster)).
    reflexivity.
  - rewrite (bind_outcome _ _ _ _ (executeElection_body _)). run.
    rewrite Hcluster. reflexivity.
Qed.

Lemma remoteFrom_single i (node : NodeRPC.t) : remoteFrom i [node] i = [].
Proof. simpl. rewrite Z.eqb_refl. reflexivity. Qed.

Lemma switchToLeader_candidate n :
  wellFormed n ->
  Current (statemachine n) = CANDIDATE ->
  switchToLeader n = Returns tt (elected n) [].
Proof.
  intros Hwf Hrole. rewrite switchToLeader_body.
  rewrite run_statemachineNext; [| exact Hwf | rewrite Hrole; constructor].
  run. reflexivity.
Qed.

(** C1. A round of executeElection is won if and only if the grants, the
    self-vote plus the peers whose RequestVote reply granted, reach
    floor (N / 2) + 1, N being the size of the cluster, the node included.
    In a cluster of a single node (the node itself, id 0) an election
    timeout on the live node wins the election without a peer call and
    leaves the node LEADER, its heartbeat timer armed and its election
    timer stopped. *)
Theorem executeElection_won_iff_quorum (n : Node) (c : Cluster) :
  cluster n = Some c ->
  (exists won sent,
     executeElection n = Returns won (set_votedFor (Some (id n)) n) sent
     /\ (won = true <->
         quorum (length (allNodes c))
           <= totalGrants (currentTerm n) (id n) (GetRemoteFollowers c (id n))))
  /\
  (length (allNodes c) = 1%nat -> id n = 0 ->
   stopped n = false -> wellFormed n -> Current (statemachine n) <> LEADER ->
   electionTimeout n = Returns tt (elected (candidacy n)) []
   /\ Current (statemachine (elected (candidacy n))) = LEADER
   /\ armed (heartbeatTimer (elected (candidacy n))) = true
   /\ armed (electionTimer (elected (candidacy n))) = false).
Proof.
  intros Hcluster. split.
  - eexists _, _. split; [apply executeElection_run; exact Hcluster |].
    rewrite tally_quorum, countVotes_totalGrants. reflexivity.
  - intros Hsingle Hid Hlive Hwf Hrole. split; [| repeat split].
    rewrite electionTimeout_live by assumption. rewrite Hcluster.
    unfold GetRemoteFollowers. rewrite Hid.
    destruct c as [[| node [| ? ?]]]; simpl in Hsingle; try discriminate.
    simpl allNodes. rewrite remoteFrom_single. simpl.
    rewrite switchToLeader_candidate; reflexivity.
Qed.

(** ** A reply with a greater term during the election *)

Lemma remoteFrom_map (f : NodeRPC.t -> NodeRPC.t) i nodes self :
  remoteFrom i (map f nodes) self = map f (remoteFrom i nodes self).
Proof.
  revert i. induction nodes as [| node rest IH]; intros i; simpl; [reflexivity |].
  destruct (i =? self); simpl; rewrite IH; reflexivity.
Qed.

Lemma levelled_same_vote t p term candidateID lastLogIndex lastLogTerm :
  snd (NodeRPC.RequestVote (levelled t p) term candidateID lastLogIndex lastLogTerm)
  = snd (NodeRPC.RequestVote p term candidateID lastLogIndex lastLogTerm).
Proof.
  simpl. destruct (NodeRPC.RequestVote p _ _ _ _). reflexivity.
Qed.

Lemma levelled_term_le t p term candidateID lastLogIndex lastLogTerm :
  fst (NodeRPC.RequestVote (levelled t p) term candidateID lastLogIndex lastLogTerm)
  <= t.
Proof.
  simpl. destruct (NodeRPC.RequestVote p _ _ _ _) as [reply ok]. simpl.
  destruct (Z.gtb_spec reply t); lia.
Qed.

(** C9. The fan-out and tally of executeElection return the node as it
    entered them (currentTerm, role and votedFor included), whatever terms
    the replies carry; and the round has the same result as in the cluster
    whose peers answer with the same grant flags and with every term
    greater than the candidate's replaced by the candidate's own. *)
Theorem executeElection_ignores_greater_term (n : Node) (c : Cluster) :
  cluster n = Some c ->
  let n1 := set_votedFor (Some (id n)) n in
  let c' := levelCluster (currentTerm n) c in
  (exists votes sent,
     requestVotes (GetRemoteFollowers c (id n)) n1 = Returns votes n1 sent)
  /\
  (exists won sent sent',
     executeElection n = Returns won n1 sent
     /\ executeElection (set_cluster (Some c') n)
          = Returns won (set_cluster (Some c') n1) sent')
  /\ currentTerm n1 = currentTerm n
  /\ statemachine n1 = statemachine n
  /\ votedFor n1 = Some (id n)
  /\ Forall (fun p =>
       fst (NodeRPC.RequestVote p (currentTerm n) (id n) 0 0) <= currentTerm n)
       (GetRemoteFollowers c' (id n)).
Proof.
  intros Hcluster n1 c'. split; [| split; [| repeat split]].
  - eexists _, _. apply requestVotes_run.
  - eexists _, _, _. split; [apply executeElection_run; exact Hcluster |].
    rewrite (executeElection_run (set_cluster (Some c') n) c' eq_refl).
    subst c'. unfold GetRemoteFollowers, levelCluster, tally. simpl.
    rewrite remoteFrom_map, map_map, length_map.
    f_equal. do 2 f_equal. apply map_ext. intros p.
    apply levelled_same_vote.
  - subst c'. unfold GetRemoteFollowers, levelCluster. simpl.
    rewrite remoteFrom_map. apply Forall_forall. intros p Hin.
    apply list_elem_of_In, in_map_iff in Hin as (q & <- & _).
    apply levelled_term_le.
Qed.

(** ** Stopped nodes, and stopping *)

Lemma electionTimeout_stopped n :
  stopped n = true -> electionTimeout n = Returns tt n [].
Proof. intros H. rewrite electionTimeout_body. run. rewrite H. reflexivity. Qed.

Lemma heatbeatTimeout_stopped n :
  stopped n = true -> heatbeatTimeout n = Returns tt n [].
Proof. intros H. unfold heatbeatTimeout. run. rewrite H. reflexivity. Qed.

Lemma RequestVote_stopped n term candidateID lastLogIndex lastLogTerm :
  stopped n = true ->
  RequestVote term candidateID lastLogIndex lastLogTerm n
    = Returns (currentTerm n, false) n [].
Proof. intros H. unfold RequestVote. run. rewrite H. reflexivity. Qed.

Lemma AppendEntries_stopped n term leaderID prevLogIndex prevLogTermin entries leaderCommit :
  stopped n = true ->
  AppendEntries term leaderID prevLogIndex prevLogTermin entries leaderCommit n
    = Returns (currentTerm n, false) n [].
Proof. intros H. unfold AppendEntries. run. rewrite H. reflexivity. Qed.

Lemma Stop_wellFormed n :
  wellFormed n ->
  Stop n =
    match Current (statemachine n) with
    | FOLLOWER => Panics (StateChangeNotAllowed FOLLOWER FOLLOWER) (halted n) []
    | _ => Returns tt (set_statemachine (inRole FOLLOWER) (halted n)) []
    end.
Proof.
  intros Hwf. unfold Stop. run.
  destruct (Current (statemachine n)) eqn:Hrole.
  - rewrite statemachineNext_illegal.
    + simpl. rewrite Hrole. reflexivity.
    + exact Hwf.
    + simpl. rewrite Hrole. intros H. inversion H.
  - apply statemachineNext_legal; [exact Hwf |].
    simpl. rewrite Hrole. constructor.
  - apply statemachineNext_legal; [exact Hwf |].
    simpl. rewrite Hrole. constructor.
Qed.

(** ** AppendEntries, branch by branch *)

Lemma AppendEntries_live n term leaderID prevLogIndex prevLogTermin entries leaderCommit :
  stopped n = false ->
  AppendEntries term leaderID prevLogIndex prevLogTermin entries leaderCommit n =
    let heard m :=
      if (length entries =? 0)%nat
      then set_electionTimer (signal resetC (electionTimer m)) m else m in
    if term <? currentTerm n then Returns (currentTerm n, false) n []
    else if term >? currentTerm n then
      if isLeader n || isCandidate n then
        match switchToFollower (set_currentTerm term n) with
        | Returns _ m sent => Returns (currentTerm m, false) m sent
        | Panics why m sent => Panics why m sent
        end
      else Returns (term, true) (heard (set_currentTerm term n)) []
    else Returns (currentTerm n, true) (heard n) [].
Proof.
  intros Hlive. unfold AppendEntries. run. rewrite Hlive.
  destruct (term <? currentTerm n); [reflexivity |].
  destruct (term >? currentTerm n); run.
  - change (isLeader (set_currentTerm term n)) with (isLeader n).
    change (isCandidate (set_currentTerm term n)) with (isCandidate n).
    destruct (isLeader n || isCandidate n); run.
    + unfold mbind, M_bind.
      destruct (switchToFollower _) as [[] m sent | why m sent]; [| reflexivity].
      simpl. rewrite app_nil_r. reflexivity.
    + destruct (length entries =? 0)%nat; run; reflexivity.
  - destruct (length entries =? 0)%nat; run; reflexivity.
Qed.

(** AppendEntries never writes [votedFor], and never lowers the term. *)
Lemma AppendEntries_frame n term leaderID prevLogIndex prevLogTermin entries leaderCommit
    reply n1 sent :
  AppendEntries term leaderID prevLogIndex prevLogTermin entries leaderCommit n
    = Returns reply n1 sent ->
  votedFor n1 = votedFor n /\ stopped n1 = stopped n /\
  currentTerm n <= currentTerm n1.
Proof.
  destruct (stopped n) eqn:Hstop.
  - rewrite AppendEntries_stopped by assumption.
    intros [= _ <- _]. repeat split; [assumption | lia].
  - rewrite AppendEntries_live by assumption. cbv zeta.
    destruct (Z.ltb_spec term (currentTerm n)).
    { intros [= _ <- _]. repeat split; [assumption | lia]. }
    destruct (Z.gtb_spec term (currentTerm n)).
    + destruct (isLeader n || isCandidate n).
      * destruct (switchToFollower _) as [[] m s | why m s] eqn:Hswitch;
          [| discriminate].
        apply switchToFollower_frame in Hswitch
          as (Hterm & Hvote & Hstopped & _ & _ & _ & _).
        intros [= _ <- _]. rewrite Hterm, Hvote, Hstopped. simpl.
        repeat split; [assumption | lia].
      * intros [= _ <- _].
        destruct (length entries =? 0)%nat; simpl;
          repeat split; try assumption; lia.
    + intros [= _ <- _].
      destruct (length entries =? 0)%nat; simpl;
        repeat split; try assumption; lia.
Qed.

(** AppendEntries with a greater term: the term is adopted, the vote of the
    old term stays. *)
Lemma AppendEntries_greater_term n term leaderID prevLogIndex prevLogTermin entries
    leaderCommit reply n1 sent :
  stopped n = false ->
  currentTerm n < term ->
  AppendEntries term leaderID prevLogIndex prevLogTermin entries leaderCommit n
    = Returns reply n1 sent ->
  currentTerm n1 = term /\ votedFor n1 = votedFor n.
Proof.
  intros Hlive Hgreater Hrun.
  split; [| eapply AppendEntries_frame; exact Hrun].
  revert Hrun. rewrite AppendEntries_live by assumption. cbv zeta.
  destruct (Z.ltb_spec term (currentTerm n)); [lia |].
  destruct (Z.gtb_spec term (currentTerm n)); [| lia].
  destruct (isLeader n || isCandidate n).
  - destruct (switchToFollower _) as [[] m s | why m s] eqn:Hswitch;
      [| discriminate].
    apply switchToFollower_frame in Hswitch as (Hterm & _).
    intros [= _ <- _]. exact Hterm.
  - intros [= _ <- _]. destruct (length entries =? 0)%nat; reflexivity.
Qed.

(** Stop on a CANDIDATE or a LEADER returns: the node is stopped, a
    FOLLOWER, both timers disarmed; and from then on the timer callbacks
    change nothing and both RPCs answer (currentTerm, false). *)
Lemma Stop_candidate_or_leader n :
  wellFormed n ->
  Current (statemachine n) <> FOLLOWER ->
  let n' := set_statemachine (inRole FOLLOWER) (halted n) in
  Stop n = Returns tt n' []
  /\ stopped n' = true /\ Current (statemachine n') = FOLLOWER
  /\ armed (electionTimer n') = false /\ armed (heartbeatTimer n') = false
  /\ electionTimeout n' = Returns tt n' []
  /\ heatbeatTimeout n' = Returns tt n' []
  /\ (forall term candidateID lastLogIndex lastLogTerm,
        RequestVote term candidateID lastLogIndex lastLogTerm n'
          = Returns (currentTerm n, false) n' [])
  /\ (forall term leaderID prevLogIndex prevLogTermin entries leaderCommit,
        AppendEntries term leaderID prevLogIndex prevLogTermin entries leaderCommit n'
          = Returns (currentTerm n, false) n' []).
Proof.
  intros Hwf Hrole n'. split.
  - rewrite Stop_wellFormed by assumption.
    destruct (Current (statemachine n)); [congruence | reflexivity | reflexivity].
  - repeat split.
Qed.

(** RequestVote never clears a vote, and never lowers the term. *)
Lemma RequestVote_frame n term candidateID lastLogIndex lastLogTerm reply n1 sent :
  RequestVote term candidateID lastLogIndex lastLogTerm n = Returns reply n1 sent ->
  (votedFor n <> None -> votedFor n1 <> None) /\ stopped n1 = stopped n /\
  currentTerm n <= currentTerm n1.
Proof.
  destruct (stopped n) eqn:Hstop.
  - rewrite RequestVote_stopped by assumption.
    intros [= _ <- _]. repeat split; [auto | assumption | lia].
  - destruct reply as [t [|]].
    + intros H. apply RequestVote_granted in H
        as (_ & Hterm & Hvote & Hstopped & _ & Hle & _); [| assumption].
      rewrite Hterm, Hvote. repeat split; [discriminate | assumption | lia].
    + rewrite RequestVote_live by assumption. cbv zeta.
      destruct (term <? currentTerm n).
      { intros [= _ <- _]. simpl. repeat split; [auto | assumption | lia]. }
      destruct (bool_decide (votedFor n ≠ None) && (term =? currentTerm n)).
      { intros [= _ <- _]. simpl. repeat split; [auto | assumption | lia]. }
      destruct (term >? currentTerm n).
      * destruct ((if isCandidate n || isLeader n then switchToFollower else mret tt) _)
          as [[] m s | why m s]; discriminate.
      * discriminate.
Qed.

(** ** Sequences of RPCs *)

Lemma forEach_cons_Returns {A B} (body : A -> M B) x rest n bs n' sent :
  forEach body (x :: rest) n = Returns bs n' sent ->
  exists b n1 sent1 bs' sent',
    body x n = Returns b n1 sent1 /\
    forEach body rest n1 = Returns bs' n' sent' /\
    bs = b :: bs' /\ sent = sent1 ++ sent'.
Proof.
  simpl. unfold mbind, M_bind.
  destruct (body x n) as [b n1 sent1 | why n1 sent1]; [| discriminate].
  destruct (forEach body rest n1) as [bs' n2 sent' | why n2 sent'] eqn:Hrest;
    [| discriminate].
  simpl. rewrite app_nil_r. intros [= <- <- <-].
  exists b, n1, sent1, bs', sent'. repeat split. exact Hrest.
Qed.

Lemma grantedTerms_bounds rpcs : forall n replies n' sent,
  forEach serve rpcs n = Returns replies n' sent ->
  StronglySorted Z.lt (grantedTerms rpcs replies) /\
  Forall (fun t => currentTerm n <= t /\ (votedFor n <> None -> currentTerm n < t))
    (grantedTerms rpcs replies).
Proof.
  induction rpcs as [| rpc rest IH]; intros n replies n' sent Hrun.
  - simpl. split; constructor.
  - apply forEach_cons_Returns in Hrun
      as (reply & n1 & sent1 & replies' & sent' & Hserve & Hrest & -> & ->).
    destruct (IH _ _ _ _ Hrest) as [Hsorted Hbound].
    destruct rpc as [term candidateID lastLogIndex lastLogTerm
                    | term leaderID prevLogIndex prevLogTermin entries leaderCommit];
      simpl in Hserve; simpl grantedTerms.
    + destruct reply as [t [|]]; simpl.
      * (* a vote is granted *)
        assert (Hlive : stopped n = false).
        { destruct (stopped n) eqn:Hstop; [| reflexivity].
          rewrite RequestVote_stopped in Hserve by assumption. discriminate. }
        apply RequestVote_granted in Hserve
          as (_ & Hterm & Hvote & _ & _ & Hle & Hlt); [| assumption].
        assert (Hlater : Forall (Z.lt term) (grantedTerms rest replies')).
        { eapply Forall_impl; [exact Hbound |]. simpl. intros t' [_ Hv].
          rewrite <- Hterm. apply Hv. rewrite Hvote. discriminate. }
        split.
        -- constructor; assumption.
        -- constructor; [split; assumption |].
           eapply Forall_impl; [exact Hlater |]. simpl.
           intros t' Ht'. split; [lia |]. intros _. specialize (Hlt). lia.
      * (* the vote is denied *)
        apply RequestVote_frame in Hserve as (Hvote & _ & Hle).
        split; [assumption |].
        eapply Forall_impl; [exact Hbound |]. simpl. intros t' [Hle' Hlt'].
        split; [lia |]. intros Hv. specialize (Hlt' (Hvote Hv)). lia.
    + apply AppendEntries_frame in Hserve as (Hvote & _ & Hle).
      split; [assumption |].
      eapply Forall_impl; [exact Hbound |]. simpl. intros t' [Hle' Hlt'].
      split; [lia |]. intros Hv. rewrite Hvote in Hlt'. specialize (Hlt' Hv). lia.
Qed.

(** Whatever RequestVote and AppendEntries calls a node serves one after the
    other, the terms of the votes it grants are strictly increasing: no
    term is granted twice. *)
Lemma RequestVote_grants_increase rpcs n replies n' sent :
  forEach serve rpcs n = Returns replies n' sent ->
  StronglySorted Z.lt (grantedTerms rpcs replies).
Proof. intros H. apply (grantedTerms_bounds rpcs n replies n' sent H). Qed.


Lemma increasing_NoDup (ts : list Z) : StronglySorted Z.lt ts -> NoDup ts.
Proof.
  induction 1 as [| t ts _ IH Hall]; constructor; [| exact IH].
  intros Hin. rewrite Forall_forall in Hall.
  specialize (Hall t Hin). lia.
Qed.

(** ** The transition table is never written *)

Lemma nodeOf_prefixed {A} sent (o : Outcome A) : nodeOf (prefixed sent o) = nodeOf o.
Proof. destruct o; reflexivity. Qed.

Lemma keepsTable_ret {A} (a : A) : keepsTable (mret a).
Proof. intros n. reflexivity. Qed.

Lemma keepsTable_get : keepsTable get.
Proof. intros n. reflexivity. Qed.

Lemma keepsTable_send c : keepsTable (send c).
Proof. intros n. reflexivity. Qed.

Lemma keepsTable_panic {A} why : keepsTable (panic (A := A) why).
Proof. intros n. reflexivity. Qed.

Lemma keepsTable_modify f :
  (forall n, statemachine (f n) = statemachine n) -> keepsTable (modify f).
Proof. intros Hf n. simpl. rewrite Hf. reflexivity. Qed.

Lemma keepsTable_bind {A B} (m : M A) (f : A -> M B) :
  keepsTable m -> (forall a, keepsTable (f a)) -> keepsTable (m ≫= f).
Proof.
  intros Hm Hf n. specialize (Hm n). unfold mbind, M_bind.
  destruct (m n) as [a n1 sent1 | why n1 sent1]; simpl in *; [| exact Hm].
  rewrite nodeOf_prefixed, (Hf a n1). exact Hm.
Qed.

Lemma keepsTable_if {A} (b : bool) (m1 m2 : M A) :
  keepsTable m1 -> keepsTable m2 -> keepsTable (if b then m1 else m2).
Proof. destruct b; auto. Qed.

Lemma keepsTable_forEach {A B} (body : A -> M B) l :
  (forall x, keepsTable (body x)) -> keepsTable (forEach body l).
Proof.
  intros Hbody. induction l as [| x rest IH]; simpl.
  - apply keepsTable_ret.
  - apply keepsTable_bind; [apply Hbody |]. intros b.
    apply keepsTable_bind; [exact IH |]. intros bs. apply keepsTable_ret.
Qed.

Lemma keepsTable_statemachineNext next : keepsTable (statemachineNext next).
Proof.
  intros n. unfold statemachineNext, Next.
  destruct (negb (isValid (statemachine n) next)); reflexivity.
Qed.

Lemma keepsTable_electionTimerSend sig : keepsTable (electionTimerSend sig).
Proof. apply keepsTable_modify. reflexivity. Qed.

Lemma keepsTable_heartbeatTimerSend sig : keepsTable (heartbeatTimerSend sig).
Proof. apply keepsTable_modify. reflexivity. Qed.

Create HintDb keeps.

#[local] Hint Resolve keepsTable_ret keepsTable_get keepsTable_send keepsTable_panic
  keepsTable_statemachineNext keepsTable_electionTimerSend
  keepsTable_heartbeatTimerSend keepsTable_if : keeps.

Ltac keeps :=
  repeat first
    [ apply keepsTable_bind; [| intros ?]
    | apply keepsTable_if
    | apply keepsTable_modify; reflexivity
    | apply keepsTable_forEach; intros ?
    | solve [auto with keeps]
    | match goal with
      | |- keepsTable (match ?x with _ => _ end) => destruct x
      end ].

Lemma keepsTable_switchToFollower : keepsTable switchToFollower.
Proof. unfold switchToFollower. keeps. Qed.

Lemma keepsTable_outcome {A} (m m' : M A) :
  (forall n, m n = m' n) -> keepsTable m' -> keepsTable m.
Proof. intros Heq Hm n. rewrite Heq. apply Hm. Qed.

Lemma keepsTable_switchToLeader : keepsTable switchToLeader.
Proof. apply (keepsTable_outcome _ _ switchToLeader_body). keeps. Qed.

#[local] Hint Resolve keepsTable_switchToFollower keepsTable_switchToLeader : keeps.

Lemma keepsTable_Start c : keepsTable (Start c).
Proof. unfold Start. keeps. Qed.

Lemma keepsTable_Stop : keepsTable Stop.
Proof. unfold Stop. keeps. Qed.

Lemma keepsTable_requestVotes nodes : keepsTable (requestVotes nodes).
Proof. apply (keepsTable_outcome _ _ (requestVotes_body nodes)). keeps. Qed.

Lemma keepsTable_executeElection : keepsTable executeElection.
Proof.
  apply (keepsTable_outcome _ _ executeElection_body).
  pose proof keepsTable_requestVotes. keeps.
Qed.

Lemma keepsTable_startElectionProcess : keepsTable startElectionProcess.
Proof.
  apply (keepsTable_outcome _ _ startElectionProcess_body).
  pose proof keepsTable_executeElection. keeps.
Qed.

Lemma keepsTable_electionTimeout : keepsTable electionTimeout.
Proof.
  apply (keepsTable_outcome _ _ electionTimeout_body).
  pose proof keepsTable_startElectionProcess. keeps.
Qed.

Lemma keepsTable_heatbeatTimeout : keepsTable heatbeatTimeout.
Proof. unfold heatbeatTimeout, sendHeartbeats. keeps. Qed.

Lemma keepsTable_AppendEntries term leaderID prevLogIndex prevLogTermin entries leaderCommit :
  keepsTable
    (AppendEntries term leaderID prevLogIndex prevLogTermin entries leaderCommit).
Proof. unfold AppendEntries. keeps. Qed.

Lemma keepsTable_RequestVote term candidateID lastLogIndex lastLogTerm :
  keepsTable (RequestVote term candidateID lastLogIndex lastLogTerm).
Proof. unfold RequestVote. keeps. Qed.

Lemma NewNode_wellFormed i : wellFormed (NewNode i).
Proof. reflexivity. Qed.

(** Every node a handler leaves, by return or by panic, carries the table
    the node had: [wellFormed] holds of every node reached from [NewNode]. *)
Lemma wellFormed_kept {A} (handler : M A) n :
  keepsTable handler -> wellFormed n -> wellFormed (nodeOf (handler n)).
Proof. unfold wellFormed. intros Hkeeps Hwf. rewrite (Hkeeps n). exact Hwf. Qed.

(** ** The handlers on a well-formed node, outcome by outcome *)

Lemma switchToFollower_wellFormed n :
  wellFormed n -> switchToFollower n = Returns tt (stepDown n) [].
Proof.
  intros Hwf. unfold stepDown.
  destruct (Current (statemachine n)) eqn:Hrole.
  - apply switchToFollower_follower. exact Hrole.
  - apply switchToFollower_candidate; assumption.
  - apply switchToFollower_leader; assumption.
Qed.

Lemma stepDown_follower n : Current (statemachine (stepDown n)) = FOLLOWER.
Proof.
  unfold stepDown. destruct (Current (statemachine n)) eqn:Hrole;
    [exact Hrole | reflexivity | reflexivity].
Qed.

Lemma stepDown_frame n :
  currentTerm (stepDown n) = currentTerm n /\ votedFor (stepDown n) = votedFor n /\
  stopped (stepDown n) = stopped n /\ id (stepDown n) = id n /\
  electionTimer (stepDown n) = electionTimer n /\ cluster (stepDown n) = cluster n /\
  replicatedLog (stepDown n) = replicatedLog n.
Proof.
  unfold stepDown.
  destruct (Current (statemachine n)) eqn:Hrole; simpl; repeat split.
Qed.

Lemma stepDown_currentTerm n : currentTerm (stepDown n) = currentTerm n.
Proof. apply stepDown_frame. Qed.

Lemma stepDown_idle n :
  isCandidate n || isLeader n = false -> stepDown n = n.
Proof.
  unfold stepDown, isCandidate, isLeader.
  destruct (Current (statemachine n)); simpl; [reflexivity | discriminate ..].
Qed.

Lemma RequestVote_wellFormed n term candidateID lastLogIndex lastLogTerm :
  stopped n = false ->
  wellFormed n ->
  RequestVote term candidateID lastLogIndex lastLogTerm n =
    let nr := set_electionTimer (signal resetC (electionTimer n)) n in
    if term <? currentTerm n then Returns (currentTerm n, false) nr []
    else if bool_decide (votedFor n ≠ None) && (term =? currentTerm n)
    then Returns (currentTerm n, false) nr []
    else if term >? currentTerm n
    then Returns (term, true)
           (set_votedFor (Some candidateID) (stepDown (set_currentTerm term nr))) []
    else Returns (currentTerm n, true) (set_votedFor (Some candidateID) nr) [].
Proof.
  intros Hlive Hwf. rewrite RequestVote_live by assumption. cbv zeta.
  destruct (term <? currentTerm n); [reflexivity |].
  destruct (bool_decide (votedFor n ≠ None) && (term =? currentTerm n));
    [reflexivity |].
  destruct (term >? currentTerm n); [| reflexivity].
  destruct (isCandidate n || isLeader n) eqn:Hbusy.
  - rewrite switchToFollower_wellFormed by exact Hwf.
    rewrite stepDown_currentTerm. reflexivity.
  - rewrite run_mret.
    rewrite (stepDown_idle
               (set_currentTerm term
                  (set_electionTimer (signal resetC (electionTimer n)) n)) Hbusy).
    reflexivity.
Qed.

Lemma AppendEntries_wellFormed n term leaderID prevLogIndex prevLogTermin entries
    leaderCommit :
  stopped n = false ->
  wellFormed n ->
  AppendEntries term leaderID prevLogIndex prevLogTermin entries leaderCommit n =
    let heard m :=
      if (length entries =? 0)%nat
      then set_electionTimer (signal resetC (electionTimer m)) m else m in
    if term <? currentTerm n then Returns (currentTerm n, false) n []
    else if term >? currentTerm n then
      if isLeader n || isCandidate n
      then Returns (term, false) (stepDown (set_currentTerm term n)) []
      else Returns (term, true) (heard (set_currentTerm term n)) []
    else Returns (currentTerm n, true) (heard n) [].
Proof.
  intros Hlive Hwf. rewrite AppendEntries_live by assumption. cbv zeta.
  destruct (term <? currentTerm n); [reflexivity |].
  destruct (term >? currentTerm n); [| reflexivity].
  destruct (isLeader n || isCandidate n); [| reflexivity].
  rewrite switchToFollower_wellFormed by exact Hwf.
  unfold stepDown. simpl.
  destruct (Current (statemachine n)); reflexivity.
Qed.

Lemma conclude_candidacy n won :
  conclude won (candidacy n) =
    Returns tt (if won then elected (candidacy n) else defeated (candidacy n)) [].
Proof.
  unfold conclude. destruct won.
  - apply switchToLeader_candidate; reflexivity.
  - rewrite run_statemachineNext; [| reflexivity | constructor].
    unfold electionTimerSend, modify. reflexivity.
Qed.

Lemma Start_run c n : Start c n = Returns tt (restarted c n) [].
Proof. unfold Start. run. reflexivity. Qed.

(** ** What an election timeout leaves *)

Lemma tally_decide c term self peers :
  tally c (map (fun p => snd (NodeRPC.RequestVote p term self 0 0)) peers)
  = bool_decide (quorum (length (allNodes c)) <= totalGrants term self peers).
Proof.
  rewrite <- countVotes_totalGrants.
  destruct (tally c _) eqn:Htally; symmetry.
  - apply bool_decide_eq_true_2, tally_quorum. exact Htally.
  - apply bool_decide_eq_false_2. intros Hq.
    apply tally_quorum in Hq. congruence.
Qed.

(** X5. An election timeout on a live node that is not the leader and has
    a cluster, whose peers all answer their RequestVote: the handler
    returns, and the calls it has made are one
    RequestVote(newTerm, id, 0, 0) to each remote follower, in whatever
    order the goroutines issued them. When the grants reach the quorum the
    node is LEADER, its heartbeat timer reset and its election timer
    stopped; otherwise it is FOLLOWER, its election timer reset and its
    heartbeat timer untouched. Either way it is left in the new term with
    its vote given to itself. *)
Theorem electionTimeout_won_or_lost (n : Node) (c : Cluster) :
  stopped n = false ->
  Current (statemachine n) <> LEADER ->
  wellFormed n ->
  cluster n = Some c ->
  let peers := GetRemoteFollowers c (id n) in
  let term := wrap (currentTerm n + 1) in
  let won :=
    bool_decide (quorum (length (allNodes c)) <= totalGrants term (id n) peers) in
  let n' := if won then elected (candidacy n) else defeated (candidacy n) in
  (exists sent,
     electionTimeout n = Returns tt n' sent
     /\ Permutation sent (map (fun p => CallRequestVote p term (id n) 0 0) peers))
  /\ currentTerm n' = term
  /\ votedFor n' = Some (id n)
  /\ Current (statemachine n') = (if won then LEADER else FOLLOWER)
  /\ armed (electionTimer n') = negb won
  /\ heartbeatTimer n'
       = (if won then signal resetC (heartbeatTimer n) else heartbeatTimer n).
Proof.
  intros Hlive Hrole Hwf Hcluster peers term won n'.
  split.
  - eexists. split; [| reflexivity].
    rewrite electionTimeout_live by assumption. rewrite Hcluster. cbv zeta.
    rewrite tally_decide, conclude_candidacy. simpl. rewrite app_nil_r.
    reflexivity.
  - subst n'. destruct won; repeat split.
Qed.

(** ** A leader and its timers *)

(** X6. A live LEADER that receives a RequestVote with a term below its own
    denies it, stays LEADER, and has its election timer reset all the same;
    the election timeout that follows panics, the node being LEADER. *)
Theorem RequestVote_rearms_leader_election_timer
    (n : Node) (term candidateID lastLogIndex lastLogTerm : Z) :
  stopped n = false ->
  Current (statemachine n) = LEADER ->
  term < currentTerm n ->
  let n' := set_electionTimer (signal resetC (electionTimer n)) n in
  RequestVote term candidateID lastLogIndex lastLogTerm n
    = Returns (currentTerm n, false) n' []
  /\ Current (statemachine n') = LEADER
  /\ armed (electionTimer n') = true
  /\ electionTimeout n' = Panics ElectionTimeoutAsLeader n' [].
Proof.
  intros Hlive Hrole Hstale n'. split; [| split; [exact Hrole | split]].
  - rewrite RequestVote_live by assumption. cbv zeta.
    destruct (Z.ltb_spec term (currentTerm n)); [reflexivity | lia].
  - reflexivity.
  - rewrite electionTimeout_body. run. rewrite Hlive.
    rewrite (isLeader_leader n' Hrole). reflexivity.
Qed.

(** X7. A live LEADER whose election timer is disarmed and that receives
    AppendEntries with a greater term adopts the term, answers
    (term, false) and becomes FOLLOWER with its heartbeat timer stopped and
    its election timer still disarmed: no timer of the node is armed any
    more. Its vote is kept. *)
Theorem AppendEntries_leaves_superseded_leader_without_timer
    (n : Node) (term leaderID prevLogIndex prevLogTermin : Z)
    (entries : list string) (leaderCommit : Z) :
  stopped n = false ->
  wellFormed n ->
  Current (statemachine n) = LEADER ->
  armed (electionTimer n) = false ->
  currentTerm n < term ->
  let n' := demoted (set_currentTerm term n) in
  AppendEntries term leaderID prevLogIndex prevLogTermin entries leaderCommit n
    = Returns (term, false) n' []
  /\ Current (statemachine n') = FOLLOWER
  /\ stopped n' = false
  /\ currentTerm n' = term
  /\ votedFor n' = votedFor n
  /\ armed (electionTimer n') = false
  /\ armed (heartbeatTimer n') = false.
Proof.
  intros Hlive Hwf Hrole Hidle Hgreater n'.
  split; [| repeat split; assumption].
  rewrite AppendEntries_wellFormed by assumption. cbv zeta.
  destruct (Z.ltb_spec term (currentTerm n)); [lia |].
  destruct (Z.gtb_spec term (currentTerm n)); [| lia].
  rewrite (isLeader_leader n Hrole). simpl.
  unfold stepDown. simpl. rewrite Hrole. reflexivity.
Qed.

(** ** The two RPCs, decided *)

Ltac decide_vote :=
  intros; try reflexivity; try assumption;
  try solve [lia | discriminate | congruence
            | intuition (try lia; try discriminate; try congruence)].

(** X8. On a live node RequestVote always returns, sends no RPC and resets
    the election timer once. The vote is granted exactly when the term is
    greater than the node's, or equal to it with no vote cast; the log
    position of the candidate plays no part. The reply carries the node's
    term after the call, the greater of the two terms. A grant records the
    candidate, a denial keeps votedFor; a greater term leaves the node
    FOLLOWER, any other term leaves its role. *)
Theorem RequestVote_decision
    (n : Node) (term candidateID lastLogIndex lastLogTerm : Z) :
  stopped n = false ->
  wellFormed n ->
  exists ok n1,
    RequestVote term candidateID lastLogIndex lastLogTerm n
      = Returns (currentTerm n1, ok) n1 []
    /\ (ok = true <->
        currentTerm n < term \/ (term = currentTerm n /\ votedFor n = None))
    /\ currentTerm n1 = Z.max term (currentTerm n)
    /\ votedFor n1 = (if ok then Some candidateID else votedFor n)
    /\ Current (statemachine n1)
         = (if currentTerm n <? term then FOLLOWER else Current (statemachine n))
    /\ electionTimer n1 = signal resetC (electionTimer n).
Proof.
  intros Hlive Hwf.
  rewrite RequestVote_wellFormed by assumption. cbv zeta.
  set (nr := set_electionTimer (signal resetC (electionTimer n)) n).
  assert (Hdown : forall m, currentTerm (stepDown m) = currentTerm m
                            /\ votedFor (stepDown m) = votedFor m
                            /\ electionTimer (stepDown m) = electionTimer m).
  { intros m. destruct (stepDown_frame m) as (? & ? & _ & _ & ? & _). auto. }
  assert (Hnone : votedFor n = None <-> ~ votedFor n <> None).
  { destruct (votedFor n); split; intros H; try congruence.
    exfalso. apply H. discriminate. }
  destruct (Z.ltb_spec term (currentTerm n)) as [Hlt | Hge].
  { exists false, nr. simpl.
    destruct (Z.ltb_spec (currentTerm n) term); [lia |].
    repeat split; decide_vote. }
  destruct (bool_decide_reflect (votedFor n ≠ None)) as [Hvoted | Hfree];
    destruct (Z.eqb_spec term (currentTerm n)) as [Heq | Hne]; simpl.
  - exists false, nr. simpl.
    destruct (Z.ltb_spec (currentTerm n) term); [lia |].
    repeat split; decide_vote.
  - destruct (Z.gtb_spec term (currentTerm n)); [| lia].
    exists true, (set_votedFor (Some candidateID) (stepDown (set_currentTerm term nr))).
    simpl. destruct (Hdown (set_currentTerm term nr)) as (-> & _ & ->).
    rewrite stepDown_follower. simpl.
    destruct (Z.ltb_spec (currentTerm n) term); [| lia].
    repeat split; decide_vote.
  - destruct (Z.gtb_spec term (currentTerm n)); [lia |].
    exists true, (set_votedFor (Some candidateID) nr). simpl.
    destruct (Z.ltb_spec (currentTerm n) term); [lia |].
    repeat split; decide_vote.
  - destruct (Z.gtb_spec term (currentTerm n)); [| lia].
    exists true, (set_votedFor (Some candidateID) (stepDown (set_currentTerm term nr))).
    simpl. destruct (Hdown (set_currentTerm term nr)) as (-> & _ & ->).
    rewrite stepDown_follower. simpl.
    destruct (Z.ltb_spec (currentTerm n) term); [| lia].
    repeat split; decide_vote.
Qed.

(** X9. On a live node AppendEntries always returns and sends no RPC. It
    succeeds exactly when the term is not below the node's and, if it is
    greater, the node is a FOLLOWER; leaderID, the previous log position,
    the content of the entries and leaderCommit play no part. The reply
    carries the node's term after the call, the greater of the two terms.
    votedFor is never written; a greater term leaves the node FOLLOWER; the
    election timer is reset exactly by a successful call without
    entries. *)
Theorem AppendEntries_decision
    (n : Node) (term leaderID prevLogIndex prevLogTermin : Z)
    (entries : list string) (leaderCommit : Z) :
  stopped n = false ->
  wellFormed n ->
  exists ok n1,
    AppendEntries term leaderID prevLogIndex prevLogTermin entries leaderCommit n
      = Returns (currentTerm n1, ok) n1 []
    /\ (ok = true <->
        currentTerm n <= term
        /\ (currentTerm n < term -> Current (statemachine n) = FOLLOWER))
    /\ currentTerm n1 = Z.max term (currentTerm n)
    /\ votedFor n1 = votedFor n
    /\ Current (statemachine n1)
         = (if currentTerm n <? term then FOLLOWER else Current (statemachine n))
    /\ electionTimer n1
         = (if ok && (length entries =? 0)%nat
            then signal resetC (electionTimer n) else electionTimer n).
Proof.
  intros Hlive Hwf.
  rewrite AppendEntries_wellFormed by assumption. cbv zeta.
  assert (Hdown : forall m, currentTerm (stepDown m) = currentTerm m
                            /\ votedFor (stepDown m) = votedFor m
                            /\ electionTimer (stepDown m) = electionTimer m).
  { intros m. destruct (stepDown_frame m) as (? & ? & _ & _ & ? & _). auto. }
  destruct (Z.ltb_spec term (currentTerm n)) as [Hlt | Hge].
  { exists false, n. simpl.
    destruct (Z.ltb_spec (currentTerm n) term); [lia |].
    repeat split; decide_vote. }
  destruct (Z.gtb_spec term (currentTerm n)) as [Hgt | Hle].
  - destruct (Z.ltb_spec (currentTerm n) term) as [_ | ?]; [| lia].
    unfold isLeader, isCandidate.
    destruct (Current (statemachine n)) eqn:Hrole; simpl.
    + exists true,
        (if (length entries =? 0)%nat
         then set_electionTimer (signal resetC (electionTimer n))
                (set_currentTerm term n)
         else set_currentTerm term n).
      destruct (length entries =? 0)%nat; simpl; repeat split; decide_vote.
    + exists false, (stepDown (set_currentTerm term n)).
      destruct (Hdown (set_currentTerm term n)) as (-> & -> & ->).
      rewrite stepDown_follower. simpl. repeat split; decide_vote.
    + exists false, (stepDown (set_currentTerm term n)).
      destruct (Hdown (set_currentTerm term n)) as (-> & -> & ->).
      rewrite stepDown_follower. simpl. repeat split; decide_vote.
  - destruct (Z.ltb_spec (currentTerm n) term) as [? | _]; [lia |].
    exists true,
      (if (length entries =? 0)%nat
       then set_electionTimer (signal resetC (electionTimer n)) n else n).
    destruct (length entries =? 0)%nat; simpl; repeat split; decide_vote.
Qed.

(** ** Sequences of RPCs on a well-formed node *)

Lemma serve_stopped rpc n :
  stopped n = true -> serve rpc n = Returns (currentTerm n, false) n [].
Proof.
  intros H. destruct rpc; simpl.
  - apply RequestVote_stopped. exact H.
  - apply AppendEntries_stopped. exact H.
Qed.

(** One RPC: it returns, calls no peer, reports the node's term after the
    call, and that term is not below the term before. *)
Lemma serve_wellFormed rpc n :
  wellFormed n ->
  exists ok n1,
    serve rpc n = Returns (currentTerm n1, ok) n1 []
    /\ currentTerm n <= currentTerm n1 /\ wellFormed n1.
Proof.
  intros Hwf.
  assert (Hkept : forall reply n1 sent,
            serve rpc n = Returns reply n1 sent -> wellFormed n1).
  { intros reply n1 sent Hrun.
    assert (Hk : keepsTable (serve rpc)).
    { destruct rpc; [apply keepsTable_RequestVote | apply keepsTable_AppendEntries]. }
    pose proof (wellFormed_kept (serve rpc) n Hk Hwf) as H.
    rewrite Hrun in H. exact H. }
  assert (Hshape : exists ok n1,
            serve rpc n = Returns (currentTerm n1, ok) n1 []
            /\ currentTerm n <= currentTerm n1).
  { destruct (stopped n) eqn:Hstop.
    { exists false, n. rewrite serve_stopped by assumption.
      split; [reflexivity | lia]. }
    destruct rpc as [term candidateID lastLogIndex lastLogTerm
                    | term leaderID prevLogIndex prevLogTermin entries leaderCommit];
      simpl serve.
    - rewrite RequestVote_wellFormed by assumption. cbv zeta.
      set (nr := set_electionTimer (signal resetC (electionTimer n)) n).
      destruct (Z.ltb_spec term (currentTerm n)).
      { exists false, nr. split; [reflexivity | simpl; lia]. }
      destruct (bool_decide (votedFor n ≠ None) && (term =? currentTerm n)).
      { exists false, nr. split; [reflexivity | simpl; lia]. }
      destruct (Z.gtb_spec term (currentTerm n)).
      + exists true,
          (set_votedFor (Some candidateID) (stepDown (set_currentTerm term nr))).
        simpl. rewrite stepDown_currentTerm. simpl. split; [reflexivity | lia].
      + exists true, (set_votedFor (Some candidateID) nr).
        split; [reflexivity | simpl; lia].
    - rewrite AppendEntries_wellFormed by assumption. cbv zeta.
      destruct (Z.ltb_spec term (currentTerm n)).
      { exists false, n. split; [reflexivity | lia]. }
      destruct (Z.gtb_spec term (currentTerm n)).
      + destruct (isLeader n || isCandidate n).
        * exists false, (stepDown (set_currentTerm term n)).
          rewrite stepDown_currentTerm. simpl. split; [reflexivity | lia].
        * destruct (length entries =? 0)%nat.
          -- exists true,
               (set_electionTimer (signal resetC (electionTimer n))
                  (set_currentTerm term n)).
             split; [reflexivity | simpl; lia].
          -- exists true, (set_currentTerm term n).
             split; [reflexivity | simpl; lia].
      + destruct (length entries =? 0)%nat.
        * exists true, (set_electionTimer (signal resetC (electionTimer n)) n).
          split; [reflexivity | simpl; lia].
        * exists true, n. split; [reflexivity | lia]. }
  destruct Hshape as (ok & n1 & Hrun & Hle).
  exists ok, n1. split; [exact Hrun |]. split; [exact Hle |].
  exact (Hkept _ _ _ Hrun).
Qed.

(** X10. A node with the constructor's transition table serves every
    sequence of RequestVote and AppendEntries calls without a panic and
    without calling a peer, one reply per call; the terms it reports,
    reply after reply, never decrease, starting from its current term, and
    its own term does not decrease either. *)
Theorem serve_sequence_never_panics_terms_grow (n : Node) (rpcs : list Rpc) :
  wellFormed n ->
  exists replies n',
    forEach serve rpcs n = Returns replies n' []
    /\ length replies = length rpcs
    /\ Sorted Z.le (currentTerm n :: map fst replies)
    /\ currentTerm n <= currentTerm n'
    /\ wellFormed n'.
Proof.
  revert n. induction rpcs as [| rpc rest IH]; intros n Hwf.
  - exists [], n. simpl. repeat split; try assumption; try lia.
    repeat constructor.
  - destruct (serve_wellFormed rpc n Hwf) as (ok & n1 & Hrun & Hle & Hwf1).
    destruct (IH n1 Hwf1) as (replies & n' & Hrest & Hlen & Hsorted & Hgrow & Hwf').
    exists ((currentTerm n1, ok) :: replies), n'. split; [| split; [| split; [| split]]].
    + simpl forEach. rewrite (run_bind _ _ _ _ _ _ Hrun). run.
      rewrite (run_bind _ _ _ _ _ _ Hrest). run. reflexivity.
    + simpl. rewrite Hlen. reflexivity.
    + simpl. constructor; [exact Hsorted | constructor; exact Hle].
    + lia.
    + exact Hwf'.
Qed.

(** ** A stopped node *)

Lemma handle_stopped e n :
  stopped n = true -> quiet e ->
  handle e n = Returns (refusal (currentTerm n) e) n [].
Proof.
  intros Hstop Hquiet. destruct e as [c | | | | rpc]; simpl in *;
    try contradiction.
  - rewrite (run_bind _ _ _ _ _ _ (electionTimeout_stopped n Hstop)). reflexivity.
  - rewrite (run_bind _ _ _ _ _ _ (heatbeatTimeout_stopped n Hstop)). reflexivity.
  - rewrite (run_bind _ _ _ _ _ _ (serve_stopped rpc n Hstop)). reflexivity.
Qed.

(** X11. A stopped node goes through any sequence of timer fires and RPCs
    unchanged and without calling a peer: a timer callback does nothing,
    and every RequestVote and AppendEntries is answered
    (currentTerm, false). *)
Theorem stopped_node_ignores_timers_and_rpcs (n : Node) (events : list Event) :
  stopped n = true ->
  Forall quiet events ->
  forEach handle events n
    = Returns (map (refusal (currentTerm n)) events) n [].
Proof.
  intros Hstop Hquiet. induction Hquiet as [| e rest He _ IH]; [reflexivity |].
  simpl forEach.
  rewrite (run_bind _ _ _ _ _ _ (handle_stopped e n Hstop He)). run.
  rewrite (run_bind _ _ _ _ _ _ IH). run. reflexivity.
Qed.

(** X13. Stop followed by Start on a CANDIDATE or LEADER: both calls
    return, and the node is live again as a FOLLOWER of the cluster given
    to Start, its election timer armed and its heartbeat timer disarmed.
    Its currentTerm and votedFor are those it had before Stop. *)
Theorem Stop_then_Start_keeps_term_and_vote (n : Node) (c : option Cluster) :
  wellFormed n ->
  Current (statemachine n) <> FOLLOWER ->
  let n' := restarted c (set_statemachine (inRole FOLLOWER) (halted n)) in
  (Stop;; Start c) n = Returns tt n' []
  /\ stopped n' = false
  /\ cluster n' = c
  /\ Current (statemachine n') = FOLLOWER
  /\ currentTerm n' = currentTerm n
  /\ votedFor n' = votedFor n
  /\ armed (electionTimer n') = true
  /\ armed (heartbeatTimer n') = false.
Proof.
  intros Hwf Hrole n'. split; [| repeat split].
  assert (Hstop : Stop n
                  = Returns tt (set_statemachine (inRole FOLLOWER) (halted n)) []).
  { rewrite Stop_wellFormed by assumption.
    destruct (Current (statemachine n)); [congruence | reflexivity | reflexivity]. }
  rewrite (run_bind _ _ _ _ _ _ Hstop). run. apply Start_run.
Qed.

(** ** A heartbeat cycle *)

(** X12. A heartbeat cycle of a live LEADER with a cluster returns after
    one AppendEntries(currentTerm, id, 0, 0, nil, 0) to each remote
    follower, in order, the peers after a demoting reply included. The
    node is unchanged when no reply carries a greater term, and demoted
    otherwise; in both cases currentTerm (a greater term is not adopted),
    votedFor and the election timer are as before. *)
Theorem heatbeatTimeout_calls_every_peer_keeps_term (n : Node) (c : Cluster) :
  stopped n = false ->
  wellFormed n ->
  Current (statemachine n) = LEADER ->
  cluster n = Some c ->
  let peers := GetRemoteFollowers c (id n) in
  let superseded :=
    existsb (fun p =>
      fst (NodeRPC.AppendEntries p (currentTerm n) (id n) 0 0 [] 0) >? currentTerm n)
      peers in
  let n' := if superseded then demoted n else n in
  heatbeatTimeout n
    = Returns tt n'
        (map (fun p => CallAppendEntries p (currentTerm n) (id n) 0 0 [] 0) peers)
  /\ currentTerm n' = currentTerm n
  /\ votedFor n' = votedFor n
  /\ electionTimer n' = electionTimer n.
Proof.
  intros Hlive Hwf Hrole Hcluster peers superseded n'. split.
  - unfold heatbeatTimeout. run. rewrite Hlive.
    unfold isNotLeader. rewrite (isLeader_leader n Hrole). simpl.
    rewrite Hcluster.
    rewrite (run_bind _ _ _ _ _ _ (sendHeartbeats_leader _ n Hwf Hrole)).
    run. reflexivity.
  - subst n'. destruct superseded; repeat split.
Qed.

(** ** Between two handlers *)

Lemma bind_panics {A B} (m : M A) (f : A -> M B) n why n1 sent1 :
  m n = Panics why n1 sent1 -> (m ≫= f) n = Panics why n1 sent1.
Proof. intros H. unfold mbind, M_bind. rewrite H. reflexivity. Qed.

Lemma bind_returns {A B} (m : M A) (b : B) n r n' sent :
  (m ≫= fun _ => mret b) n = Returns r n' sent ->
  exists a, m n = Returns a n' sent /\ r = b.
Proof.
  unfold mbind, M_bind.
  destruct (m n) as [a n1 sent1 | why n1 sent1]; [| discriminate].
  simpl. rewrite app_nil_r. intros [= <- <- <-]. eauto.
Qed.

Lemma atRest_NewNode i : atRest i (NewNode i).
Proof.
  unfold atRest. simpl. repeat split; try discriminate.
Qed.

Ltac at_rest :=
  unfold atRest, defeated, elected, candidacy, demoted, restarted, halted in *;
  simpl in *;
  repeat match goal with
         | |- _ /\ _ => split
         | |- _ <-> _ => split
         end;
  intros; try assumption; try reflexivity; try discriminate;
  try congruence; try tauto.

Lemma stepDown_atRest i n :
  atRest i n -> atRest i (stepDown n).
Proof.
  intros (Hwf & Hid & Hlog & Hnc & Harm & Hlv). unfold stepDown.
  destruct (Current (statemachine n)) eqn:Hrole.
  - unfold atRest. rewrite Hrole. auto 10.
  - congruence.
  - at_rest.
Qed.

Lemma set_currentTerm_atRest i term n : atRest i n -> atRest i (set_currentTerm term n).
Proof. intros H. exact H. Qed.

Lemma set_electionTimer_atRest i t n : atRest i n -> atRest i (set_electionTimer t n).
Proof. intros H. exact H. Qed.

Lemma set_votedFor_atRest i v n :
  atRest i n -> Current (statemachine n) <> LEADER -> atRest i (set_votedFor v n).
Proof.
  intros (Hwf & Hid & Hlog & Hnc & Harm & Hlv) Hrole.
  unfold atRest. simpl. repeat split; try assumption; try apply Harm.
  intros H. contradiction.
Qed.

Lemma serve_atRest i rpc n reply n' sent :
  atRest i n -> serve rpc n = Returns reply n' sent -> atRest i n'.
Proof.
  intros Hrest. pose proof Hrest as (Hwf & Hid & Hlog & Hnc & Harm & Hlv).
  destruct (stopped n) eqn:Hstop.
  { rewrite serve_stopped by assumption. intros [= _ <- _]. exact Hrest. }
  destruct rpc as [term candidateID lastLogIndex lastLogTerm
                  | term leaderID prevLogIndex prevLogTermin entries leaderCommit];
    simpl serve.
  - rewrite RequestVote_wellFormed by assumption. cbv zeta.
    destruct (Z.ltb_spec term (currentTerm n)).
    { intros [= _ <- _]. apply set_electionTimer_atRest. exact Hrest. }
    destruct (bool_decide_reflect (votedFor n ≠ None)) as [Hvoted | Hfree];
      destruct (Z.eqb_spec term (currentTerm n)); simpl;
      try (intros [= _ <- _]; apply set_electionTimer_atRest; exact Hrest);
      destruct (Z.gtb_spec term (currentTerm n)); try lia; intros [= _ <- _].
    + apply set_votedFor_atRest; [| rewrite stepDown_follower; discriminate].
      apply stepDown_atRest, set_currentTerm_atRest, set_electionTimer_atRest.
      exact Hrest.
    + apply set_votedFor_atRest; [exact Hrest |]. simpl.
      intros Hlead. apply Hfree. rewrite (Hlv Hlead). discriminate.
    + apply set_votedFor_atRest; [| rewrite stepDown_follower; discriminate].
      apply stepDown_atRest, set_currentTerm_atRest, set_electionTimer_atRest.
      exact Hrest.
  - rewrite AppendEntries_wellFormed by assumption. cbv zeta.
    destruct (term <? currentTerm n).
    { intros [= _ <- _]. exact Hrest. }
    destruct (term >? currentTerm n).
    + destruct (isLeader n || isCandidate n).
      * intros [= _ <- _]. apply stepDown_atRest. exact Hrest.
      * intros [= _ <- _]. destruct (length entries =? 0)%nat; exact Hrest.
    + intros [= _ <- _]. destruct (length entries =? 0)%nat; exact Hrest.
Qed.

Lemma handle_atRest i e n r n' sent :
  atRest i n -> handle e n = Returns r n' sent -> atRest i n'.
Proof.
  intros Hrest. pose proof Hrest as (Hwf & Hid & Hlog & Hnc & Harm & Hlv).
  destruct e as [c | | | | rpc]; simpl handle.
  - (* Start *)
    rewrite (run_bind _ _ _ _ _ _ (Start_run c n)). run.
    intros [= _ <- _]. exact Hrest.
  - (* Stop *)
    intros Hrun. apply bind_returns in Hrun as (a & Hrun & _). revert Hrun.
    rewrite Stop_wellFormed by assumption.
    destruct (Current (statemachine n)) eqn:Hrole;
      [discriminate | congruence |].
    intros [= _ <- _]. at_rest.
  - (* the election timer fires *)
    intros Hrun. apply bind_returns in Hrun as (a & Hrun & _). revert Hrun.
    destruct (stopped n) eqn:Hstop.
    { rewrite electionTimeout_stopped by assumption.
      intros [= _ <- _]. exact Hrest. }
    destruct (Current (statemachine n)) eqn:Hrole; [| congruence |].
    + rewrite electionTimeout_live; [| assumption | congruence | assumption].
      destruct (cluster n) as [c |]; [| discriminate]. cbv zeta.
      rewrite conclude_candidacy. simpl.
      assert (Hidle : armed (heartbeatTimer n) <> true).
      { intros H. apply Harm in H. discriminate. }
      destruct (tally c _); intros [= _ <- _]; at_rest.
    + rewrite electionTimeout_body. run. rewrite Hstop, (isLeader_leader n Hrole).
      discriminate.
  - (* the heartbeat timer fires *)
    intros Hrun. apply bind_returns in Hrun as (a & Hrun & _). revert Hrun.
    destruct (stopped n) eqn:Hstop.
    { rewrite heatbeatTimeout_stopped by assumption.
      intros [= _ <- _]. exact Hrest. }
    unfold heatbeatTimeout. run. rewrite Hstop. unfold isNotLeader.
    destruct (Current (statemachine n)) eqn:Hrole; [| congruence |].
    + rewrite (isLeader_follower n Hrole). discriminate.
    + rewrite (isLeader_leader n Hrole). simpl.
      destruct (cluster n) as [c |]; [| discriminate].
      rewrite (run_bind _ _ _ _ _ _ (sendHeartbeats_leader _ n Hwf Hrole)).
      run. destruct (existsb _ _); intros [= _ <- _]; [at_rest | exact Hrest].
  - (* an RPC arrives *)
    unfold mbind, M_bind.
    destruct (serve rpc n) as [reply n1 sent1 | why n1 sent1] eqn:Hserve;
      [| discriminate].
    simpl. intros [= _ <- _]. eapply serve_atRest; eassumption.
Qed.

Lemma reachable_atRest i n : reachable i n -> atRest i n.
Proof.
  induction 1 as [| n e r n' sent _ IH Hstep].
  - apply atRest_NewNode.
  - eapply handle_atRest; eassumption.
Qed.

(** X3. Whatever calls, timer fires and RPCs a node has gone through since
    its construction, as long as each handler returned: between two
    handlers it is never CANDIDATE (a candidacy starts and ends inside one
    election timeout), and its heartbeat timer is armed exactly when it is
    LEADER. *)
Theorem reachable_roles_and_heartbeat_timer (i : Z) (n : Node) :
  reachable i n ->
  Current (statemachine n) <> CANDIDATE
  /\ (armed (heartbeatTimer n) = true <-> Current (statemachine n) = LEADER).
Proof.
  intros Hreach. apply reachable_atRest in Hreach as (_ & _ & _ & Hnc & Harm & _).
  split; assumption.
Qed.

(** X4. For the same nodes: the id is the one given to the constructor,
    the replicated log is the one the constructor made (no handler writes
    it), the transition table is the constructor's, and a LEADER's
    votedFor is its own id. *)
Theorem reachable_identity_log_and_leader_vote (i : Z) (n : Node) :
  reachable i n ->
  id n = i
  /\ replicatedLog n = NewReplicatedLog
  /\ wellFormed n
  /\ (Current (statemachine n) = LEADER -> votedFor n = Some i).
Proof.
  intros Hreach. apply reachable_atRest in Hreach as (Hwf & Hid & Hlog & _ & _ & Hlv).
  repeat split; assumption.
Qed.

(** ** The vote, once cast *)

Lemma keepsTable_handle e : keepsTable (handle e).
Proof.
  destruct e as [c | | | | rpc]; simpl.
  - apply keepsTable_bind; [apply keepsTable_Start | intros; apply keepsTable_ret].
  - apply keepsTable_bind; [apply keepsTable_Stop | intros; apply keepsTable_ret].
  - apply keepsTable_bind;
      [apply keepsTable_electionTimeout | intros; apply keepsTable_ret].
  - apply keepsTable_bind;
      [apply keepsTable_heatbeatTimeout | intros; apply keepsTable_ret].
  - apply keepsTable_bind; [| intros; apply keepsTable_ret].
    destruct rpc; [apply keepsTable_RequestVote | apply keepsTable_AppendEntries].
Qed.

Lemma handle_keeps_vote e n r n' sent :
  wellFormed n ->
  handle e n = Returns r n' sent ->
  votedFor n <> None -> votedFor n' <> None.
Proof.
  intros Hwf Hrun Hvoted. revert Hrun.
  destruct e as [c | | | | rpc]; simpl handle.
  - rewrite (run_bind _ _ _ _ _ _ (Start_run c n)). run.
    intros [= _ <- _]. exact Hvoted.
  - intros Hrun. apply bind_returns in Hrun as (a & Hrun & _). revert Hrun.
    rewrite Stop_wellFormed by assumption.
    destruct (Current (statemachine n)); [discriminate | |];
      intros [= _ <- _]; exact Hvoted.
  - intros Hrun. apply bind_returns in Hrun as (a & Hrun & _). revert Hrun.
    destruct (stopped n) eqn:Hstop.
    { rewrite electionTimeout_stopped by assumption.
      intros [= _ <- _]. exact Hvoted. }
    destruct (decide (Current (statemachine n) = LEADER)) as [Hrole | Hrole].
    + rewrite electionTimeout_body. run. rewrite Hstop, (isLeader_leader n Hrole).
      discriminate.
    + rewrite electionTimeout_live by assumption.
      destruct (cluster n) as [c |]; [| discriminate]. cbv zeta.
      rewrite conclude_candidacy. simpl.
      destruct (tally c _); intros [= _ <- _]; discriminate.
  - intros Hrun. apply bind_returns in Hrun as (a & Hrun & _). revert Hrun.
    destruct (stopped n) eqn:Hstop.
    { rewrite heatbeatTimeout_stopped by assumption.
      intros [= _ <- _]. exact Hvoted. }
    unfold heatbeatTimeout. run. rewrite Hstop. unfold isNotLeader.
    destruct (decide (Current (statemachine n) = LEADER)) as [Hrole | Hrole].
    + rewrite (isLeader_leader n Hrole). simpl.
      destruct (cluster n) as [c |]; [| discriminate].
      rewrite (run_bind _ _ _ _ _ _ (sendHeartbeats_leader _ n Hwf Hrole)).
      run. destruct (existsb _ _); intros [= _ <- _]; exact Hvoted.
    + rewrite (isLeader_not_leader n Hrole). discriminate.
  - unfold mbind, M_bind.
    destruct (serve rpc n) as [reply n1 sent1 | why n1 sent1] eqn:Hserve;
      [| discriminate].
    simpl. intros [= _ <- _]. destruct rpc; simpl in Hserve.
    + apply RequestVote_frame in Hserve as (Hkeep & _). auto.
    + apply AppendEntries_frame in Hserve as (Heq & _). congruence.
Qed.

(** X14. A node with the constructor's transition table whose votedFor is
    set keeps a vote through every sequence of Start, Stop, timer fires
    and RPCs whose handlers return: no handler leaves votedFor nil. *)
Theorem votedFor_never_cleared (n : Node) (events : list Event)
    (replies : list (option (Z * bool))) (n' : Node) (sent : list RpcCall) :
  wellFormed n ->
  votedFor n <> None ->
  forEach handle events n = Returns replies n' sent ->
  votedFor n' <> None.
Proof.
  revert n replies sent. induction events as [| e rest IH];
    intros n replies sent Hwf Hvoted Hrun.
  - injection Hrun as _ <- _. exact Hvoted.
  - apply forEach_cons_Returns in Hrun
      as (r & n1 & sent1 & replies' & sent' & Hstep & Hrest & _ & _).
    apply (IH n1 replies' sent'); [| | exact Hrest].
    + pose proof (wellFormed_kept (handle e) n (keepsTable_handle e) Hwf) as H.
      rewrite Hstep in H. exact H.
    + eapply handle_keeps_vote; eassumption.
Qed.


(** ** One vote per term, and the wrap that breaks it *)

Lemma handle_term_le e n r n' sent :
  wellFormed n ->
  int_min <= currentTerm n ->
  wrapsAt e n = false ->
  handle e n = Returns r n' sent ->
  currentTerm n <= currentTerm n'.
Proof.
  intros Hwf Hmin Hnowrap Hrun. revert Hrun.
  destruct e as [c | | | | rpc]; simpl handle.
  - rewrite (run_bind _ _ _ _ _ _ (Start_run c n)). run.
    intros [= _ <- _]. simpl. lia.
  - intros Hrun. apply bind_returns in Hrun as (a & Hrun & _). revert Hrun.
    rewrite Stop_wellFormed by assumption.
    destruct (Current (statemachine n)); [discriminate | |];
      intros [= _ <- _]; simpl; lia.
  - intros Hrun. apply bind_returns in Hrun as (a & Hrun & _). revert Hrun.
    destruct (stopped n) eqn:Hstop.
    { rewrite electionTimeout_stopped by assumption.
      intros [= _ <- _]. lia. }
    destruct (decide (Current (statemachine n) = LEADER)) as [Hrole | Hrole].
    + rewrite electionTimeout_body. run. rewrite Hstop, (isLeader_leader n Hrole).
      discriminate.
    + assert (Hbelow : currentTerm n < int_max).
      { simpl in Hnowrap. unfold isNotLeader in Hnowrap.
        rewrite Hstop, (isLeader_not_leader n Hrole) in Hnowrap. simpl in Hnowrap.
        apply Z.leb_gt in Hnowrap. exact Hnowrap. }
      rewrite electionTimeout_live by assumption.
      destruct (cluster n) as [c |]; [| discriminate]. cbv zeta.
      rewrite conclude_candidacy. simpl.
      destruct (tally c _); intros [= _ <- _]; simpl;
        rewrite wrap_succ by lia; lia.
  - intros Hrun. apply bind_returns in Hrun as (a & Hrun & _). revert Hrun.
    destruct (stopped n) eqn:Hstop.
    { rewrite heatbeatTimeout_stopped by assumption.
      intros [= _ <- _]. lia. }
    unfold heatbeatTimeout. run. rewrite Hstop. unfold isNotLeader.
    destruct (decide (Current (statemachine n) = LEADER)) as [Hrole | Hrole].
    + rewrite (isLeader_leader n Hrole). simpl.
      destruct (cluster n) as [c |]; [| discriminate].
      rewrite (run_bind _ _ _ _ _ _ (sendHeartbeats_leader _ n Hwf Hrole)).
      run. destruct (existsb _ _); intros [= _ <- _]; simpl; lia.
    + rewrite (isLeader_not_leader n Hrole). discriminate.
  - unfold mbind, M_bind.
    destruct (serve rpc n) as [reply n1 sent1 | why n1 sent1] eqn:Hserve;
      [| discriminate].
    simpl. intros [= _ <- _]. destruct rpc; simpl in Hserve.
    + apply RequestVote_frame in Hserve as (_ & _ & Hle). exact Hle.
    + apply AppendEntries_frame in Hserve as (_ & _ & Hle). exact Hle.
Qed.

Lemma handle_granted e n t n' sent term :
  handle e n = Returns (Some (t, true)) n' sent ->
  voteGranted e (Some (t, true)) = Some term ->
  currentTerm n' = term /\ votedFor n' <> None /\
  currentTerm n <= term /\ (votedFor n <> None -> currentTerm n < term).
Proof.
  destruct e as [c | | | | [term' candidateID lastLogIndex lastLogTerm | ]];
    simpl voteGranted; try discriminate.
  intros Hrun [= <-]. revert Hrun. simpl handle. unfold mbind, M_bind.
  destruct (RequestVote term' candidateID lastLogIndex lastLogTerm n)
    as [reply n1 sent1 | why n1 sent1] eqn:Hserve; [| discriminate].
  simpl. intros [= -> <- _].
  assert (Hlive : stopped n = false).
  { destruct (stopped n) eqn:Hstop; [| reflexivity].
    rewrite RequestVote_stopped in Hserve by assumption. discriminate. }
  apply RequestVote_granted in Hserve
    as (_ & Hterm & Hvote & _ & _ & Hle & Hlt); [| assumption].
  repeat split; try assumption. rewrite Hvote. discriminate.
Qed.

Lemma voteGranted_reply e reply term :
  voteGranted e reply = Some term -> exists t, reply = Some (t, true).
Proof.
  destruct e as [c | | | | [term' candidateID lastLogIndex lastLogTerm | ]];
    simpl; try discriminate.
  destruct reply as [[t [|]] |]; try discriminate. eauto.
Qed.

Lemma votesGranted_bounds events : forall n replies n' sent,
  wellFormed n ->
  int_min <= currentTerm n ->
  wraps events n = false ->
  forEach handle events n = Returns replies n' sent ->
  StronglySorted Z.lt (votesGranted events replies) /\
  Forall (fun t => currentTerm n <= t /\ (votedFor n <> None -> currentTerm n < t))
    (votesGranted events replies).
Proof.
  induction events as [| e rest IH]; intros n replies n' sent Hwf Hmin Hnowrap Hrun.
  - simpl. split; constructor.
  - apply forEach_cons_Returns in Hrun
      as (r & n1 & sent1 & replies' & sent' & Hstep & Hrest & -> & ->).
    simpl in Hnowrap. rewrite Hstep in Hnowrap.
    apply orb_false_elim in Hnowrap as [Hhere Hlater].
    assert (Hwf1 : wellFormed n1).
    { pose proof (wellFormed_kept (handle e) n (keepsTable_handle e) Hwf) as H.
      rewrite Hstep in H. exact H. }
    pose proof (handle_term_le e n r n1 sent1 Hwf Hmin Hhere Hstep) as Hle.
    destruct (IH n1 replies' n' sent' Hwf1 ltac:(lia) Hlater Hrest)
      as [Hsorted Hbound].
    simpl votesGranted. destruct (voteGranted e r) as [term |] eqn:Hgrant.
    + (* a vote is granted *)
      destruct (voteGranted_reply e r term Hgrant) as [t ->].
      destruct (handle_granted e n t n1 sent1 term Hstep Hgrant)
        as (Hterm & Hvote & Hge & Hgt).
      assert (Hafter : Forall (Z.lt term) (votesGranted rest replies')).
      { eapply Forall_impl; [exact Hbound |]. simpl. intros t' [_ Hv].
        rewrite <- Hterm. apply Hv. exact Hvote. }
      split.
      * constructor; assumption.
      * constructor; [split; assumption |].
        eapply Forall_impl; [exact Hafter |]. simpl.
        intros t' Ht'. split; [lia |]. intros _. lia.
    + (* no vote is granted *)
      split; [assumption |].
      eapply Forall_impl; [exact Hbound |]. simpl. intros t' [Hle' Hlt'].
      split; [lia |]. intros Hv.
      pose proof (handle_keeps_vote e n r n1 sent1 Hwf Hstep Hv) as Hv1.
      specialize (Hlt' Hv1). lia.
Qed.

(** C7, as the code has it. On a node that is not stopped: a RequestVote
    for the node's current term while votedFor is set is denied; and when a
    RequestVote with (term, candidateID) is granted, the node is left in
    that term with its vote recorded, so a second RequestVote for the same
    term, from the same candidate or any other, is denied. The denied call
    resets the election timer and changes nothing else. Over any sequence
    of RequestVote and AppendEntries calls the node serves, the terms of the
    votes it grants are strictly increasing, so no two votes are granted in
    one term. The same holds over any sequence of Start, Stop, timer fires
    and RPCs whose handlers return (a panic ends the process, and the calls
    answered before it are such a sequence) on a node that carries the
    constructor's transition table and whose term is a Go int, as long as
    no election timeout in it wraps currentTerm at the greatest int. *)
Theorem RequestVote_one_vote_per_term
    (n : Node) (term candidateID lastLogIndex lastLogTerm : Z) :
  stopped n = false ->
  (votedFor n <> None -> term = currentTerm n ->
   RequestVote term candidateID lastLogIndex lastLogTerm n =
     Returns (currentTerm n, false)
       (set_electionTimer (signal resetC (electionTimer n)) n) [])
  /\
  (forall t n1 sent,
     RequestVote term candidateID lastLogIndex lastLogTerm n
       = Returns (t, true) n1 sent ->
     currentTerm n1 = term /\ votedFor n1 = Some candidateID /\
     forall candidateID' lastLogIndex' lastLogTerm',
       RequestVote term candidateID' lastLogIndex' lastLogTerm' n1 =
         Returns (term, false)
           (set_electionTimer (signal resetC (electionTimer n1)) n1) [])
  /\
  (forall rpcs replies n' sent,
     forEach serve rpcs n = Returns replies n' sent ->
     StronglySorted Z.lt (grantedTerms rpcs replies)
     /\ NoDup (grantedTerms rpcs replies))
  /\
  (forall events replies n' sent,
     wellFormed n ->
     int_min <= currentTerm n ->
     wraps events n = false ->
     forEach handle events n = Returns replies n' sent ->
     StronglySorted Z.lt (votesGranted events replies)
     /\ NoDup (votesGranted events replies)).
Proof.
  intros Hlive. split; [| split; [| split]].
  - intros Hvoted Hterm. apply RequestVote_already_voted; assumption.
  - intros t n1 sent Hgranted.
    apply RequestVote_granted in Hgranted
      as (_ & Hterm & Hvote & Hlive1 & _ & _ & _); [| assumption].
    repeat split; try assumption.
    intros candidateID' lastLogIndex' lastLogTerm'.
    rewrite <- Hterm at 2.
    apply RequestVote_already_voted; [assumption | congruence | congruence].
  - intros rpcs replies n' sent Hrun.
    pose proof (RequestVote_grants_increase rpcs n replies n' sent Hrun) as Hs.
    split; [exact Hs | apply increasing_NoDup; exact Hs].
  - intros events replies n' sent Hwf Hmin Hnowrap Hrun.
    destruct (votesGranted_bounds events n replies n' sent Hwf Hmin Hnowrap Hrun)
      as [Hs _].
    split; [exact Hs | apply increasing_NoDup; exact Hs].
Qed.


(** ** The election round, moment by moment *)

Lemma traced_bind {A B} (t : Traced A) (f : A -> Traced B) n a n1 sent1 moments1 :
  t n = (Returns a n1 sent1, moments1) ->
  Traced_bind A B f t n
    = (prefixed sent1 (fst (f a n1)), moments1 ++ snd (f a n1)).
Proof.
  intros Ht. unfold Traced_bind. rewrite Ht. destruct (f a n1); reflexivity.
Qed.

Lemma statement_returns (m : M unit) n n' :
  m n = Returns tt n' [] -> statement m n = (Returns tt n' [], [Wrote n']).
Proof. intros Hm. unfold statement. rewrite Hm. reflexivity. Qed.

(** Every call of the fan-out is issued by the node as it is when the
    fan-out starts. *)
Lemma requestVotes_traced_run nodes n :
  requestVotes_traced nodes n
    = (requestVotes nodes n,
       map (fun p => Called (CallRequestVote p (currentTerm n) (id n) 0 0) n) nodes).
Proof.
  rewrite requestVotes_run. unfold requestVotes_traced.
  match goal with |- context [forEach_traced ?b _] => set (body := b) end.
  induction nodes as [| p rest IH]; [reflexivity |].
  assert (Hbody : body p n =
            (Returns (snd (NodeRPC.RequestVote p (currentTerm n) (id n) 0 0)) n
               [CallRequestVote p (currentTerm n) (id n) 0 0],
             [Called (CallRequestVote p (currentTerm n) (id n) 0 0) n])).
  { subst body. unfold mbind, Traced_bind, reads, calls, get, send. simpl.
    destruct (NodeRPC.RequestVote p (currentTerm n) (id n) 0 0) as [term ok].
    destruct (term >? currentTerm n); reflexivity. }
  simpl forEach_traced. unfold mbind at 1.
  rewrite (traced_bind _ _ _ _ _ _ _ Hbody). unfold mbind.
  rewrite !(traced_bind _ _ _ _ _ _ _ IH). simpl. rewrite !app_nil_r.
  reflexivity.
Qed.

Lemma traced_bind_moments {A B} (t : Traced A) (f : A -> Traced B)
    n a n1 sent1 moments1 :
  t n = (Returns a n1 sent1, moments1) ->
  snd (Traced_bind A B f t n) = moments1 ++ snd (f a n1).
Proof. intros Ht. rewrite (traced_bind _ _ _ _ _ _ _ Ht). reflexivity. Qed.

Lemma traced_panics_moments {A B} (t : Traced A) (f : A -> Traced B)
    n why n1 sent1 moments1 :
  t n = (Panics why n1 sent1, moments1) ->
  snd (Traced_bind A B f t n) = moments1.
Proof. intros Ht. unfold Traced_bind. rewrite Ht. reflexivity. Qed.

Lemma executeElection_traced_run n c :
  cluster n = Some c ->
  executeElection_traced n
    = (executeElection n,
       Wrote (set_votedFor (Some (id n)) n)
       :: map (fun p => Called (CallRequestVote p (currentTerm n) (id n) 0 0)
                          (set_votedFor (Some (id n)) n))
            (GetRemoteFollowers c (id n))).
Proof.
  intros Hcluster. rewrite (executeElection_run n c Hcluster).
  unfold executeElection_traced, mbind, Traced_bind, statement, reads, modify, get.
  cbn -[requestVotes_traced]. rewrite Hcluster.
  rewrite requestVotes_traced_run, requestVotes_run.
  simpl. rewrite !app_nil_r. reflexivity.
Qed.

Lemma executeElection_traced_alone n :
  cluster n = None ->
  executeElection_traced n
    = (Panics NilCluster (set_votedFor (Some (id n)) n) [],
       [Wrote (set_votedFor (Some (id n)) n)]).
Proof.
  intros Hcluster.
  unfold executeElection_traced, mbind, Traced_bind, statement, reads, modify, get.
  cbn -[requestVotes_traced]. rewrite Hcluster. reflexivity.
Qed.

(** The moments of the end of the round: statements, and no call. *)
Lemma concluding_moments n won :
  Forall (fun moment => exists n', moment = Wrote n')
    (snd ((if won : bool then switchToLeader_traced
           else Traced_bind _ _ (fun _ => statement (electionTimerSend resetC))
                  (statement (statemachineNext FOLLOWER))) (candidacy n))).
Proof.
  destruct won.
  - unfold switchToLeader_traced. unfold mbind.
    rewrite (traced_bind_moments _ _ _ tt
               (set_statemachine (inRole LEADER) (candidacy n)) []
               [Wrote (set_statemachine (inRole LEADER) (candidacy n))])
      by (apply statement_returns; reflexivity).
    rewrite (traced_bind_moments _ _ _ tt _ [] [Wrote _])
      by (apply statement_returns; reflexivity).
    simpl. repeat constructor; eexists; reflexivity.
  - rewrite (traced_bind_moments _ _ _ tt
               (set_statemachine (inRole FOLLOWER) (candidacy n)) []
               [Wrote (set_statemachine (inRole FOLLOWER) (candidacy n))])
      by (apply statement_returns; reflexivity).
    simpl. repeat constructor; eexists; reflexivity.
Qed.

(** An election timeout on a live node that is not the leader, statement
    by statement: the term, the role, the vote cleared, the vote cast; then
    the calls, each issued by the candidate; then statements only. *)
Lemma electionTimeout_traced_live n :
  stopped n = false ->
  Current (statemachine n) <> LEADER ->
  wellFormed n ->
  let n1 := set_currentTerm (wrap (currentTerm n + 1)) n in
  let n2 := set_statemachine (inRole CANDIDATE) n1 in
  let n3 := set_votedFor None n2 in
  exists rest,
    snd (electionTimeout_traced n)
      = [Wrote n1; Wrote n2; Wrote n3; Wrote (candidacy n)]
        ++ map (fun p => Called
                  (CallRequestVote p (wrap (currentTerm n + 1)) (id n) 0 0)
                  (candidacy n))
             (match cluster n with
              | Some c => GetRemoteFollowers c (id n)
              | None => []
              end)
        ++ rest
    /\ Forall (fun moment => exists n', moment = Wrote n') rest.
Proof.
  intros Hlive Hrole Hwf n1 n2 n3.
  unfold electionTimeout_traced, mbind.
  rewrite (traced_bind_moments _ _ n n n [] []) by reflexivity.
  rewrite Hlive, (isLeader_not_leader n Hrole).
  unfold startElectionProcess_traced, mbind.
  rewrite (traced_bind_moments _ _ n tt n1 [] [Wrote n1])
    by (apply statement_returns; reflexivity).
  rewrite (traced_bind_moments _ _ n1 tt n2 [] [Wrote n2]).
  2: { apply statement_returns. apply statemachineNext_legal;
         [exact Hwf | apply legal_to_candidate; exact Hrole]. }
  rewrite (traced_bind_moments _ _ n2 tt n3 [] [Wrote n3])
    by (apply statement_returns; reflexivity).
  destruct (cluster n) as [c |] eqn:Hcluster.
  - rewrite (traced_bind_moments _ _ n3 _ _ _ _
               (eq_trans (executeElection_traced_run n3 c Hcluster)
                  (f_equal (fun o => (o, _)) (executeElection_run n3 c Hcluster)))).
    eexists. split; [simpl; reflexivity |]. apply concluding_moments.
  - rewrite (traced_panics_moments _ _ n3 _ _ _ _
               (executeElection_traced_alone n3 Hcluster)).
    exists []. split; [reflexivity | constructor].
Qed.

(** C5, as the code has it. On an election-timer fire on a node that is not
    stopped and not LEADER, the node adds one to currentTerm in Go's int
    arithmetic (exactly one below the greatest int, a wrap to the least int
    from there), moves from FOLLOWER or CANDIDATE to CANDIDATE, clears
    votedFor and sets it to its own id; every vote request of the round is
    issued from the node in that state and carries the new term and the
    node's id. Without a cluster the handler panics in that state, before
    any request. Statement by statement, the handler first writes the
    term (the role and the vote still as they were), then the role, then
    clears the vote, then casts it; only then come the vote requests, one
    for each remote follower, each issued by the node as those four writes
    left it; what follows the requests are writes only. *)
Theorem electionTimeout_candidate_before_requests (n : Node) :
  stopped n = false ->
  Current (statemachine n) <> LEADER ->
  wellFormed n ->
  currentTerm (candidacy n) = wrap (currentTerm n + 1)
  /\ (int_min <= currentTerm n < int_max ->
      currentTerm (candidacy n) = currentTerm n + 1)
  /\ Current (statemachine (candidacy n)) = CANDIDATE
  /\ votedFor (candidacy n) = Some (id n)
  /\ match cluster n with
     | None => electionTimeout n = Panics NilCluster (candidacy n) []
     | Some c =>
         exists votes sent,
           requestVotes (GetRemoteFollowers c (id n)) (candidacy n)
             = Returns votes (candidacy n) sent
           /\ Forall (fun call => exists p,
                 call = CallRequestVote p (currentTerm (candidacy n)) (id n) 0 0)
                sent
           /\ electionTimeout n
                = prefixed sent (conclude (tally c votes) (candidacy n))
     end
  /\ (let n1 := set_currentTerm (wrap (currentTerm n + 1)) n in
      let n2 := set_statemachine (inRole CANDIDATE) n1 in
      let n3 := set_votedFor None n2 in
      let n4 := set_votedFor (Some (id n)) n3 in
      (Current (statemachine n1) = Current (statemachine n)
       /\ votedFor n1 = votedFor n)
      /\ (Current (statemachine n2) = CANDIDATE /\ votedFor n2 = votedFor n)
      /\ votedFor n3 = None
      /\ (votedFor n4 = Some (id n) /\ n4 = candidacy n)
      /\ exists requests rest,
           snd (electionTimeout_traced n)
             = [Wrote n1; Wrote n2; Wrote n3; Wrote n4] ++ requests ++ rest
           /\ Permutation requests
                (map (fun p => Called
                        (CallRequestVote p (wrap (currentTerm n + 1)) (id n) 0 0)
                        n4)
                   (match cluster n with
                    | Some c => GetRemoteFollowers c (id n)
                    | None => []
                    end))
           /\ Forall (fun moment => exists n', moment = Wrote n') rest).
Proof.
  intros Hlive Hrole Hwf.
  split; [reflexivity |]. split; [intros Hrange; apply wrap_succ; exact Hrange |].
  split; [reflexivity |]. split; [reflexivity |].
  split.
  - rewrite electionTimeout_live by assumption.
    destruct (cluster n) as [c |]; [| reflexivity].
    eexists _, _. split; [apply requestVotes_run |]. split; [| reflexivity].
    apply Forall_forall. intros call Hin.
    apply list_elem_of_In, in_map_iff in Hin as (p & <- & _). exists p. reflexivity.
  - cbv zeta. repeat (split; [split; reflexivity || reflexivity |]).
    destruct (electionTimeout_traced_live n Hlive Hrole Hwf) as (rest & Hmoments & Hrest).
    eexists _, rest. split; [exact Hmoments |]. split; [reflexivity | exact Hrest].
Qed.

End Node.

Arguments Returns {ReplicatedLog A} a n sent.
Arguments Panics {ReplicatedLog A} why n sent.

(** * The role state machine against its table *)

(** C4. For every pair of roles (current, next), on a state machine as the
    constructor builds it: Next stores next and changes nothing else
    exactly when the pair is one of FOLLOWER to CANDIDATE, CANDIDATE to
    FOLLOWER, CANDIDATE or LEADER, LEADER to FOLLOWER; for every other pair
    it panics and stores nothing (no clamping). A caller that asks for
    table transitions only never reaches the panic. *)
Theorem Next_follows_transition_table (cur next : State) :
  (legal cur next <-> Next next (inRole cur) = inr (inRole next))
  /\ (~ legal cur next <->
      Next next (inRole cur) = inl (StateChangeNotAllowed cur next))
  /\ inRole FOLLOWER = NewStatemachine
  /\ current (inRole next) = next
  /\ validTransitions (inRole next) = validTransitions (inRole cur).
Proof.
  rewrite Next_inRole, legal_dec.
  split; [| split; [| repeat split]].
  - destruct cur, next; simpl; split; intros H;
      first [exact I | reflexivity | contradiction | discriminate].
  - destruct cur, next; simpl; split; intros H;
      first [reflexivity | discriminate | exfalso; apply H; exact I | intros []].
Qed.

(** * Any transition table, and runs of Next *)

Lemma found_elem_of (nextStates : list State) (next : State) :
  found nextStates next = true <-> next ∈ nextStates.
Proof.
  induction nextStates as [| v rest IH]; simpl.
  - split; [discriminate | intros H; inversion H].
  - destruct (decide (v = next)) as [-> | Hne].
    + split; [intros _; left | reflexivity].
    + rewrite IH. split; [intros H; right; exact H |].
      intros H. apply elem_of_cons in H as [-> | H]; [congruence | exact H].
Qed.

(** X1. Whatever the transition table: Next stores next, and nothing else,
    exactly when next is listed under the current role; otherwise it panics
    with the pair and stores nothing. A role that is no key of the table
    has no successor: every Next from it panics. *)
Theorem Next_succeeds_iff_listed (s : Statemachine) (next : State) :
  let nextStates := default [] (validTransitions s !! current s) in
  (((next ∈ nextStates)
    /\ Next next s = inr {| current := next; validTransitions := validTransitions s |})
   \/ ((next ∉ nextStates)
       /\ Next next s = inl (StateChangeNotAllowed (current s) next)))
  /\ (validTransitions s !! current s = None ->
      Next next s = inl (StateChangeNotAllowed (current s) next)).
Proof.
  intros nextStates. unfold Next, isValid. fold nextStates. split.
  - destruct (found nextStates next) eqn:Hfound; simpl.
    + left. split; [apply found_elem_of; exact Hfound | reflexivity].
    + right. split; [| reflexivity].
      intros Hin. apply found_elem_of in Hin. congruence.
  - subst nextStates. intros ->. reflexivity.
Qed.

Lemma legal_or_not cur next : legal cur next \/ ~ legal cur next.
Proof. rewrite legal_dec. destruct cur, next; simpl; tauto. Qed.

Lemma Next_legal cur next : legal cur next -> Next next (inRole cur) = inr (inRole next).
Proof. intros H. rewrite Next_inRole. destruct H; reflexivity. Qed.

Lemma Next_illegal cur next :
  ~ legal cur next -> Next next (inRole cur) = inl (StateChangeNotAllowed cur next).
Proof.
  intros H. rewrite Next_inRole. rewrite legal_dec in H.
  destruct cur, next; simpl in *; tauto.
Qed.

Lemma last_of_cons {A : Type} (x : A) (l : list A) (d d' : A) :
  List.last (x :: l) d = List.last (x :: l) d'.
Proof.
  revert x. induction l as [| y l IH]; intros x; [reflexivity |].
  change (List.last (y :: l) d = List.last (y :: l) d'). apply IH.
Qed.

Lemma advance_app (pre rest : list State) (s : Statemachine) :
  advance (pre ++ rest) s =
    match advance pre s with
    | inl why => inl why
    | inr s' => advance rest s'
    end.
Proof.
  revert s. induction pre as [| next pre IH]; intros s; simpl; [reflexivity |].
  destruct (Next next s) as [why | s']; [reflexivity | apply IH].
Qed.

Lemma advance_legalPath (path : list State) : forall cur,
  legalPath cur path ->
  advance path (inRole cur) = inr (inRole (List.last path cur)).
Proof.
  induction path as [| next rest IH]; intros cur; simpl; [reflexivity |].
  intros [Hstep Hrest]. rewrite (Next_legal cur next Hstep), (IH next Hrest).
  destruct rest as [| r rest']; [reflexivity |].
  rewrite (last_of_cons r rest' next cur). reflexivity.
Qed.

Lemma legalPath_first_illegal (path : list State) : forall cur,
  ~ legalPath cur path ->
  exists pre b post,
    path = pre ++ b :: post /\ legalPath cur pre /\ ~ legal (List.last pre cur) b.
Proof.
  induction path as [| next rest IH]; intros cur; simpl; [tauto |].
  intros Hno. destruct (legal_or_not cur next) as [Hstep | Hstep].
  - destruct (IH next) as (pre & b & post & -> & Hpre & Hb); [tauto |].
    exists (next :: pre), b, post. split; [reflexivity |]. split; [split; assumption |].
    destruct pre as [| p pre']; [exact Hb |].
    change (~ legal (List.last (p :: pre') cur) b).
    rewrite (last_of_cons p pre' cur next). exact Hb.
  - exists [], next, rest. repeat split. exact Hstep.
Qed.

(** X2. A run of Next calls from a state machine with the constructor's
    table goes through exactly when the requested roles form a path of the
    table from the current role, and it ends in the last role requested
    with the table unchanged. Otherwise the run stops at the first request
    that is not in the table: when the requests before b form a path and b
    is no successor of the role they lead to, the run panics with that
    role and b, whatever is requested after b; and every run that is not a
    path has such a first request. *)
Theorem advance_follows_the_table (cur : State) (path : list State) :
  (legalPath cur path ->
   advance path (inRole cur) = inr (inRole (List.last path cur)))
  /\ (forall pre b post,
        path = pre ++ b :: post ->
        legalPath cur pre ->
        ~ legal (List.last pre cur) b ->
        advance path (inRole cur)
          = inl (StateChangeNotAllowed (List.last pre cur) b))
  /\ (~ legalPath cur path ->
      exists pre b post,
        path = pre ++ b :: post /\ legalPath cur pre
        /\ ~ legal (List.last pre cur) b
        /\ advance path (inRole cur)
             = inl (StateChangeNotAllowed (List.last pre cur) b)).
Proof.
  assert (Hstop : forall pre b post,
            legalPath cur pre -> ~ legal (List.last pre cur) b ->
            advance (pre ++ b :: post) (inRole cur)
              = inl (StateChangeNotAllowed (List.last pre cur) b)).
  { intros pre b post Hpre Hb.
    rewrite advance_app, (advance_legalPath pre cur Hpre). simpl.
    rewrite (Next_illegal _ b Hb). reflexivity. }
  split; [apply advance_legalPath |]. split.
  - intros pre b post -> Hpre Hb. apply Hstop; assumption.
  - intros Hno.
    destruct (legalPath_first_illegal path cur Hno) as (pre & b & post & -> & Hpre & Hb).
    exists pre, b, post. repeat split; try assumption. apply Hstop; assumption.
Qed.

(** * GenerateIds *)

Lemma fillIds_drawIds {Service : Type} (NewUUID : string -> Service -> string * Service)
    (k : nat) : forall (i : nat) (result : list string) (service : Service),
  length result = (i + k)%nat ->
  fillIds NewUUID k i result service
    = (take i result ++ fst (drawIds NewUUID k service),
       snd (drawIds NewUUID k service)).
Proof.
  induction k as [| k IH]; intros i result service Hlen; simpl.
  - rewrite app_nil_r, take_ge by lia. reflexivity.
  - destruct (NewUUID "c1"%string service) as [uuid service'].
    rewrite IH by (rewrite length_insert; lia).
    destruct (drawIds NewUUID k service') as [uuids service'']. simpl.
    rewrite (take_S_r _ _ uuid) by (apply list_lookup_insert_eq; lia).
    rewrite take_insert_ge by lia. rewrite <- app_assoc. reflexivity.
Qed.

Lemma drawIds_length {Service : Type} (NewUUID : string -> Service -> string * Service)
    (k : nat) (service : Service) :
  length (fst (drawIds NewUUID k service)) = k.
Proof.
  revert service. induction k as [| k IH]; intros service; simpl; [reflexivity |].
  destruct (NewUUID "c1"%string service) as [uuid service'].
  specialize (IH service').
  destruct (drawIds NewUUID k service') as [uuids service'']. simpl in *.
  rewrite IH. reflexivity.
Qed.

(** X15. GenerateIds panics in make, before any call to the service, when
    count is negative or more than make accepts. Otherwise it returns a
    slice of exactly count ids: the ids the service hands out to client
    "c1" in count successive calls, in the order of the calls, none left
    empty or overwritten; the service is left as those calls leave it, and
    for count 0 it is not called. *)
Theorem GenerateIds_returns_the_first_count_ids
    {Service : Type} (NewUUID : string -> Service -> string * Service)
    (maxLen count : Z) (service : Service) :
  (count < 0 \/ maxLen < count -> GenerateIds NewUUID maxLen count service = None)
  /\ (0 <= count <= maxLen ->
      GenerateIds NewUUID maxLen count service
        = Some (drawIds NewUUID (Z.to_nat count) service)
      /\ Z.of_nat (length (fst (drawIds NewUUID (Z.to_nat count) service))) = count)
  /\ (0 <= maxLen -> GenerateIds NewUUID maxLen 0 service = Some ([], service)).
Proof.
  unfold GenerateIds. split; [| split].
  - intros Hout.
    destruct (Z.ltb_spec count 0); [reflexivity |].
    destruct (Z.ltb_spec maxLen count); [reflexivity | lia].
  - intros Hin.
    destruct (Z.ltb_spec count 0); [lia |].
    destruct (Z.ltb_spec maxLen count); [lia |]. simpl. split.
    + rewrite fillIds_drawIds by (rewrite length_replicate; lia).
      destruct (drawIds NewUUID (Z.to_nat count) service). reflexivity.
    + rewrite drawIds_length. lia.
  - intros Hmax. destruct (Z.ltb_spec maxLen 0); [lia | reflexivity].
Qed.

(** * Worked examples *)

(** A started node, and how the examples' nodes are reached. *)

Lemma Start_NewNode c : Start (Some c) (NewNode tt 0) = Returns tt (started tt c) [].
Proof. reflexivity. Qed.

Lemma RequestVote_started term c :
  0 < term ->
  RequestVote term 1 0 0 (started tt c) = Returns (term, true) (votedIn tt term c) [].
Proof.
  intros Hterm. rewrite RequestVote_live by reflexivity. cbv zeta. simpl.
  destruct (Z.ltb_spec term 0); [lia |].
  destruct (Z.gtb_spec term 0); [| lia]. reflexivity.
Qed.

Lemma electionTimeout_started_trio :
  electionTimeout (started tt trio) =
    Returns tt (leading tt trio)
      [CallRequestVote granting 1 0 0 0; CallRequestVote ahead 1 0 0 0].
Proof. vm_compute. reflexivity. Qed.

(** ** Witnesses of the theorems above *)

Lemma executeElection_won_iff_quorum_witness :
  (exists won sent,
     executeElection (started tt trio)
       = Returns won (set_votedFor (Some 0) (started tt trio)) sent
     /\ (won = true <-> quorum 3 <= totalGrants 0 0 [granting; ahead]))
  /\ electionTimeout (started tt alone) = Returns tt (leading tt alone) [].
Proof.
  split.
  - exact (proj1 (executeElection_won_iff_quorum (started tt trio) trio eq_refl)).
  - destruct (proj2 (executeElection_won_iff_quorum (started tt alone) alone eq_refl))
      as [H _]; [reflexivity | reflexivity | reflexivity | reflexivity
                | discriminate | exact H].
Defined.

Lemma electionTimeout_candidate_before_requests_witness :
  currentTerm (candidacy (started tt trio)) = 0 + 1
  /\ Current (statemachine (candidacy (started tt trio))) = CANDIDATE
  /\ votedFor (candidacy (started tt trio)) = Some 0
  /\ exists requests rest,
       snd (electionTimeout_traced (started tt trio))
         = [Wrote (set_currentTerm 1 (started tt trio));
            Wrote (set_statemachine (inRole CANDIDATE)
                     (set_currentTerm 1 (started tt trio)));
            Wrote (set_votedFor None
                     (set_statemachine (inRole CANDIDATE)
                        (set_currentTerm 1 (started tt trio))));
            Wrote (candidacy (started tt trio))]
           ++ requests ++ rest
       /\ Permutation requests
            [Called (CallRequestVote granting 1 0 0 0) (candidacy (started tt trio));
             Called (CallRequestVote ahead 1 0 0 0) (candidacy (started tt trio))]
       /\ Forall (fun moment => exists n', moment = Wrote n') rest.
Proof.
  destruct (electionTimeout_candidate_before_requests (started tt trio))
    as (_ & Hone & Hrole & Hvote & _ & _ & _ & _ & _
        & requests & rest & Hmoments & Hrequests & Hrest);
    [reflexivity | discriminate | reflexivity |].
  split; [apply Hone; split; [discriminate | reflexivity] |].
  split; [exact Hrole |]. split; [exact Hvote |].
  exists requests, rest.
  split; [exact Hmoments |]. split; [exact Hrequests | exact Hrest].
Defined.

Lemma heatbeatTimeout_greater_term_demotes_witness :
  exists sent,
    heatbeatTimeout (leading tt trio) = Returns tt (demoted (leading tt trio)) sent
    /\ Current (statemachine (demoted (leading tt trio))) = FOLLOWER
    /\ heartbeatTimer (demoted (leading tt trio))
         = signal stopC (heartbeatTimer (leading tt trio))
    /\ armed (heartbeatTimer (demoted (leading tt trio))) = false.
Proof.
  apply (heatbeatTimeout_greater_term_demotes (leading tt trio) trio ahead);
    [reflexivity | reflexivity | reflexivity | reflexivity | | reflexivity].
  apply list_elem_of_In. right. left. reflexivity.
Defined.

Lemma RequestVote_one_vote_per_term_witness :
  RequestVote 1 2 0 0 (votedIn tt 1 trio) =
    Returns (1, false)
      (set_electionTimer (signal resetC (electionTimer (votedIn tt 1 trio)))
         (votedIn tt 1 trio)) []
  /\ exists n' sent,
       forEach handle
         [Receives (VoteRequest 1 1 0 0); ElectionTimerFires;
          Receives (VoteRequest 2 2 0 0); Receives (VoteRequest 3 2 0 0)]
         (started tt trio)
       = Returns [Some (1, true); None; Some (2, false); Some (3, true)] n' sent
       /\ StronglySorted Z.lt
            (votesGranted
               [Receives (VoteRequest 1 1 0 0); ElectionTimerFires;
                Receives (VoteRequest 2 2 0 0); Receives (VoteRequest 3 2 0 0)]
               [Some (1, true); None; Some (2, false); Some (3, true)]).
Proof.
  destruct (RequestVote_one_vote_per_term (started tt trio) 1 1 0 0 eq_refl)
    as (_ & Hgranted & _ & Hrun).
  destruct (Hgranted 1 (votedIn tt 1 trio) [] (RequestVote_started 1 trio eq_refl))
    as (_ & _ & Hdenied).
  split; [apply Hdenied |].
  eexists _, _. split; [vm_compute; reflexivity |].
  refine (proj1 (Hrun _ _ _ _ _ _ _ _));
    [reflexivity | discriminate | reflexivity | vm_compute; reflexivity].
Defined.

Lemma AppendEntries_stale_term_rejected_witness :
  AppendEntries 1 2 0 0 [] 0 (votedIn tt 3 trio)
    = Returns (3, false) (votedIn tt 3 trio) [].
Proof.
  apply (AppendEntries_stale_term_rejected (votedIn tt 3 trio) 1 2 0 0 [] 0);
    reflexivity.
Defined.

Lemma executeElection_ignores_greater_term_witness :
  exists won sent sent',
    executeElection (candidacy (started tt trio))
      = Returns won (candidacy (started tt trio)) sent
    /\ executeElection
         (set_cluster (Some (levelCluster 1 trio)) (candidacy (started tt trio)))
       = Returns won
           (set_cluster (Some (levelCluster 1 trio)) (candidacy (started tt trio)))
           sent'.
Proof.
  exact (proj1 (proj2
    (executeElection_ignores_greater_term (candidacy (started tt trio)) trio eq_refl))).
Defined.

Lemma AppendEntries_entries_always_accepted_witness :
  AppendEntries 2 1 0 0 ["set x 1"%string] 0 (votedIn tt 1 trio)
    = Returns (2, true) (set_currentTerm 2 (votedIn tt 1 trio)) [].
Proof.
  refine (proj1 (AppendEntries_entries_always_accepted
                   (votedIn tt 1 trio) 2 1 0 0 ["set x 1"%string] 0 _ _ _ _));
    [reflexivity | reflexivity | simpl; lia | discriminate].
Defined.

(** ** Witnesses of the further properties *)

Lemma reachable_leading : reachable tt 0 (leading tt trio).
Proof.
  eapply (reachable_step tt 0 (started tt trio) ElectionTimerFires).
  - eapply (reachable_step tt 0 (NewNode tt 0) (DoStart (Some trio))).
    + constructor.
    + reflexivity.
  - vm_compute. reflexivity.
Qed.

Lemma reachable_roles_and_heartbeat_timer_witness :
  Current (statemachine (leading tt trio)) <> CANDIDATE
  /\ (armed (heartbeatTimer (leading tt trio)) = true
      <-> Current (statemachine (leading tt trio)) = LEADER).
Proof.
  exact (reachable_roles_and_heartbeat_timer tt 0 (leading tt trio) reachable_leading).
Defined.

Lemma reachable_identity_log_and_leader_vote_witness :
  id (leading tt trio) = 0
  /\ replicatedLog (leading tt trio) = tt
  /\ wellFormed (leading tt trio)
  /\ (Current (statemachine (leading tt trio)) = LEADER ->
      votedFor (leading tt trio) = Some 0).
Proof.
  exact (reachable_identity_log_and_leader_vote tt 0 (leading tt trio)
           reachable_leading).
Defined.

Lemma advance_follows_the_table_witness :
  advance [CANDIDATE; LEADER; FOLLOWER] (inRole FOLLOWER) = inr (inRole FOLLOWER)
  /\ advance [CANDIDATE; LEADER; LEADER; FOLLOWER] (inRole FOLLOWER)
       = inl (StateChangeNotAllowed LEADER LEADER).
Proof.
  split.
  - apply (proj1 (advance_follows_the_table FOLLOWER [CANDIDATE; LEADER; FOLLOWER])).
    simpl. repeat constructor.
  - apply (proj1 (proj2 (advance_follows_the_table FOLLOWER
                           [CANDIDATE; LEADER; LEADER; FOLLOWER]))
             [CANDIDATE; LEADER] LEADER [FOLLOWER]);
      [reflexivity | simpl; repeat constructor | intros H; inversion H].
Defined.

Lemma electionTimeout_won_or_lost_witness :
  exists sent,
    electionTimeout (started tt trio) = Returns tt (leading tt trio) sent
    /\ Permutation sent
         [CallRequestVote granting 1 0 0 0; CallRequestVote ahead 1 0 0 0].
Proof.
  refine (proj1 (electionTimeout_won_or_lost (started tt trio) trio _ _ _ _));
    [reflexivity | discriminate | reflexivity | reflexivity].
Defined.

Lemma RequestVote_rearms_leader_election_timer_witness :
  electionTimeout
    (set_electionTimer (signal resetC (electionTimer (leading tt trio)))
       (leading tt trio))
  = Panics ElectionTimeoutAsLeader
      (set_electionTimer (signal resetC (electionTimer (leading tt trio)))
         (leading tt trio)) [].
Proof.
  refine (proj2 (proj2 (proj2
    (RequestVote_rearms_leader_election_timer (leading tt trio) 0 2 0 0 _ _ _))));
    reflexivity.
Defined.

Lemma AppendEntries_leaves_superseded_leader_without_timer_witness :
  AppendEntries 2 1 0 0 [] 0 (leading tt trio)
    = Returns (2, false) (demoted (set_currentTerm 2 (leading tt trio))) [].
Proof.
  refine (proj1 (AppendEntries_leaves_superseded_leader_without_timer
                   (leading tt trio) 2 1 0 0 [] 0 _ _ _ _ _));
    reflexivity.
Defined.

Lemma RequestVote_decision_witness :
  exists ok n1,
    RequestVote 5 2 0 0 (votedIn tt 1 trio) = Returns (currentTerm n1, ok) n1 []
    /\ (ok = true <->
        currentTerm (votedIn tt 1 trio) < 5
        \/ (5 = currentTerm (votedIn tt 1 trio)
            /\ votedFor (votedIn tt 1 trio) = None))
    /\ currentTerm n1 = Z.max 5 (currentTerm (votedIn tt 1 trio))
    /\ votedFor n1 = (if ok then Some 2 else votedFor (votedIn tt 1 trio))
    /\ Current (statemachine n1)
         = (if currentTerm (votedIn tt 1 trio) <? 5 then FOLLOWER
            else Current (statemachine (votedIn tt 1 trio)))
    /\ electionTimer n1 = signal resetC (electionTimer (votedIn tt 1 trio)).
Proof.
  apply (RequestVote_decision (votedIn tt 1 trio) 5 2 0 0); reflexivity.
Defined.

Lemma AppendEntries_decision_witness :
  exists ok n1,
    AppendEntries 1 2 0 0 [] 0 (leading tt trio) = Returns (currentTerm n1, ok) n1 []
    /\ (ok = true <->
        currentTerm (leading tt trio) <= 1
        /\ (currentTerm (leading tt trio) < 1 ->
            Current (statemachine (leading tt trio)) = FOLLOWER))
    /\ currentTerm n1 = Z.max 1 (currentTerm (leading tt trio))
    /\ votedFor n1 = votedFor (leading tt trio)
    /\ Current (statemachine n1)
         = (if currentTerm (leading tt trio) <? 1 then FOLLOWER
            else Current (statemachine (leading tt trio)))
    /\ electionTimer n1
         = (if ok && (length (@nil string) =? 0)%nat
            then signal resetC (electionTimer (leading tt trio))
            else electionTimer (leading tt trio)).
Proof.
  apply (AppendEntries_decision (leading tt trio) 1 2 0 0 [] 0); reflexivity.
Defined.

Lemma serve_sequence_never_panics_terms_grow_witness :
  exists replies n',
    forEach serve [VoteRequest 3 1 0 0; Entries 2 1 0 0 [] 0; VoteRequest 3 2 0 0]
      (started tt trio) = Returns replies n' []
    /\ length replies = 3%nat
    /\ Sorted Z.le (0 :: map fst replies)
    /\ 0 <= currentTerm n'
    /\ wellFormed n'.
Proof.
  apply (serve_sequence_never_panics_terms_grow (started tt trio)
           [VoteRequest 3 1 0 0; Entries 2 1 0 0 [] 0; VoteRequest 3 2 0 0]).
  reflexivity.
Defined.

Lemma stopped_node_ignores_timers_and_rpcs_witness :
  forEach handle
    [ElectionTimerFires; Receives (VoteRequest 9 1 0 0); HeartbeatTimerFires;
     Receives (Entries 9 1 0 0 [] 0)]
    (set_stopped true (leading tt trio))
  = Returns [None; Some (1, false); None; Some (1, false)]
      (set_stopped true (leading tt trio)) [].
Proof.
  apply (stopped_node_ignores_timers_and_rpcs (set_stopped true (leading tt trio)));
    [reflexivity | repeat constructor].
Defined.

Lemma heatbeatTimeout_calls_every_peer_keeps_term_witness :
  heatbeatTimeout (leading tt trio)
    = Returns tt (demoted (leading tt trio))
        [CallAppendEntries granting 1 0 0 0 [] 0; CallAppendEntries ahead 1 0 0 0 [] 0].
Proof.
  refine (proj1 (heatbeatTimeout_calls_every_peer_keeps_term
                   (leading tt trio) trio _ _ _ _));
    reflexivity.
Defined.

Lemma Stop_then_Start_keeps_term_and_vote_witness :
  stopped (restarted (Some alone)
             (set_statemachine (inRole FOLLOWER) (halted (leading tt trio)))) = false
  /\ currentTerm (restarted (Some alone)
                    (set_statemachine (inRole FOLLOWER) (halted (leading tt trio))))
       = currentTerm (leading tt trio)
  /\ votedFor (restarted (Some alone)
                 (set_statemachine (inRole FOLLOWER) (halted (leading tt trio))))
       = votedFor (leading tt trio).
Proof.
  destruct (Stop_then_Start_keeps_term_and_vote (leading tt trio) (Some alone))
    as (_ & Hlive & _ & _ & Hterm & Hvote & _); [reflexivity | discriminate |].
  split; [exact Hlive | split; [exact Hterm | exact Hvote]].
Defined.

Lemma votedFor_never_cleared_witness :
  votedFor (votedIn tt 1 alone) = Some 1
  /\ votedFor (elected (candidacy (votedIn tt 1 alone))) <> None.
Proof.
  split; [reflexivity |].
  apply (votedFor_never_cleared (votedIn tt 1 alone) [ElectionTimerFires] [None]
           (elected (candidacy (votedIn tt 1 alone))) []);
    [reflexivity | discriminate | vm_compute; reflexivity].
Defined.

(** ** Two votes in one term *)

(** C7, as the claim words it, fails once the term has wrapped. A started
    node alone in its cluster grants its vote to candidate 1 in term 5 and
    again in term [int_max]; its election timeout then wraps currentTerm
    to [int_min] and makes it leader; a RequestVote of candidate 2 for
    term 5 is granted: two votes in term 5, to two candidates. Every
    handler of the run returns. *)
Lemma RequestVote_grants_term_twice_after_wrap :
  exists n' sent,
    forEach handle
      [Receives (VoteRequest 5 1 0 0); Receives (VoteRequest int_max 1 0 0);
       ElectionTimerFires; Receives (VoteRequest 5 2 0 0)]
      (started tt alone)
    = Returns [Some (5, true); Some (int_max, true); None; Some (5, true)] n' sent
    /\ stopped (started tt alone) = false
    /\ votesGranted
         [Receives (VoteRequest 5 1 0 0); Receives (VoteRequest int_max 1 0 0);
          ElectionTimerFires; Receives (VoteRequest 5 2 0 0)]
         [Some (5, true); Some (int_max, true); None; Some (5, true)]
       = [5; int_max; 5]
    /\ votedFor n' = Some 2
    /\ currentTerm n' = 5
    /\ wraps
         [Receives (VoteRequest 5 1 0 0); Receives (VoteRequest int_max 1 0 0);
          ElectionTimerFires; Receives (VoteRequest 5 2 0 0)]
         (started tt alone) = true.
Proof.
  eexists _, _. split; [vm_compute; reflexivity |].
  repeat split.
Qed.

(** ** The term at the end of Go's int *)

(** C5, as the claim words it, fails at the greatest int. A started node
    grants its vote in term [int_max]; at its next election timeout the
    node is live and a FOLLOWER, the handler returns, and currentTerm is
    [int_min], not currentTerm + 1. *)
Lemma electionTimeout_term_wraps_at_int_max :
  RequestVote int_max 1 0 0 (started tt alone)
    = Returns (int_max, true) (votedIn tt int_max alone) []
  /\ currentTerm (votedIn tt int_max alone) = 9223372036854775807
  /\ stopped (votedIn tt int_max alone) = false
  /\ wellFormed (votedIn tt int_max alone)
  /\ Current (statemachine (votedIn tt int_max alone)) = FOLLOWER
  /\ electionTimeout (votedIn tt int_max alone)
       = Returns tt (elected (candidacy (votedIn tt int_max alone))) []
  /\ currentTerm (candidacy (votedIn tt int_max alone)) = -9223372036854775808
  /\ currentTerm (elected (candidacy (votedIn tt int_max alone)))
       = -9223372036854775808
  /\ currentTerm (candidacy (votedIn tt int_max alone))
       <> currentTerm (votedIn tt int_max alone) + 1.
Proof.
  split; [apply RequestVote_started; reflexivity |].
  split; [reflexivity |]. split; [reflexivity |].
  split; [reflexivity |]. split; [reflexivity |].
  split; [vm_compute; reflexivity |].
  split; [reflexivity |]. split; [reflexivity |].
  vm_compute. discriminate.
Qed.

(** ** Where the code departs from its specification *)

(** C2 at a failing input. A started node grants its vote to candidate 1 in
    term 1, then receives AppendEntries with term 2: it adopts term 2 and
    its votedFor is still the vote of term 1. A RequestVote for term 2 that
    follows is denied, although the node has cast no vote in term 2. *)
Lemma AppendEntries_new_term_keeps_old_vote :
  let n := votedIn tt 1 trio in
  let n' := set_electionTimer (signal resetC (electionTimer n)) (set_currentTerm 2 n) in
  RequestVote 1 1 0 0 (started tt trio) = Returns (1, true) n []
  /\ AppendEntries 2 2 0 0 [] 0 n = Returns (2, true) n' []
  /\ currentTerm n = 1 /\ currentTerm n' = 2
  /\ votedFor n' = Some 1
  /\ RequestVote 2 2 0 0 n'
       = Returns (2, false) (set_electionTimer (signal resetC (electionTimer n')) n') [].
Proof. vm_compute. repeat split. Qed.

(** C3 at a failing input. Stop on a node that is a FOLLOWER, a new node
    right after Start or before it: the stop flag is set and both timers
    are stopped, then Next(FOLLOWER) panics, FOLLOWER to FOLLOWER not being
    in the table. *)
Lemma Stop_panics_on_follower :
  Start (Some trio) (NewNode tt 0) = Returns tt (started tt trio) []
  /\ Current (statemachine (started tt trio)) = FOLLOWER
  /\ Stop (started tt trio)
       = Panics (StateChangeNotAllowed FOLLOWER FOLLOWER) (halted (started tt trio)) []
  /\ Stop (NewNode tt 0)
       = Panics (StateChangeNotAllowed FOLLOWER FOLLOWER) (halted (NewNode tt 0)) [].
Proof. repeat split. Qed.
